(** * TileForge: focus navigation and entity lifecycle

    A shallow embedding of [src/main.js] (classes [GameObject],
    [TileEntity], [InputSystem] and [TileForgeApp]) and the properties
    of its focus navigator, grid metrics and entity collection.

    Conventions of the embedding.
    - JavaScript arrays are mutable objects that the code shares between
      [TileForgeApp.entities] and [InputSystem.items]; they live in a
      heap ([gmap loc (list _)]) and the two fields hold locations.
    - DOM elements are identified by a [node]; the document is the record
      [Page.t].  Calls that leave the program (scrollIntoView, click) are
      logged in the page, invocations of [GameObject.destroy] in the world.
    - Layout measurements ([offsetWidth]) are answers of the browser; every
      operation that reads them takes the current [Layout].
    - Indices and column counts are integers ([Z]); a measurement is a
      [Js.num], an integer or one of the special values the code tests for.
    - [Math.random] is an input of the constructor that consumes it.

    The source file carries leftovers of an earlier revision next to the
    current text: in [InputSystem.focus] the lines that take the target and
    add the class appear twice and the tail of the [scrollIntoView] call is
    repeated, and [TileForgeApp] defines [clear] twice.  [focus] is read
    with the statements in the order and under the braces they are written
    in.  Its index arithmetic and the store to [focusedIndex] come first;
    the guard [if (target && target.element) {] that follows is never
    closed before the second [const target], so that declaration belongs
    to the guarded block and the block's first statement reads [target]
    before its declaration: a call of [focus] that finds an item raises a
    ReferenceError there, with the index stored and nothing else done.
    The error passes through [registerItems] and [handleKey], whose last
    statement the call is, and through [addEntity], which then does not
    reach its [return].  Both definitions of [clear] are embedded, and the
    later one is the method of the class, as for any class body that
    defines a name twice.

    A method that can raise is given by two definitions: the state the
    call leaves (under the method's name) and the way it ends
    ([..._completion]). *)

From Stdlib Require Import ZArith Lia.
From stdpp Require Import base gmap list strings.

Local Open Scope Z_scope.

Abbreviation node := nat.
Abbreviation loc := nat.

(** ** JavaScript values used by the metrics code *)

Module Js.

(** A measurement as [calcMetrics] may read it.  [offsetWidth] of a real
    element is an integer; the code also guards against a missing value,
    NaN and the infinities. *)
Inductive num :=
| Num (z : Z)
| PosInf
| NegInf
| NaN
| Undefined.

(** [!v] is [negb (truthy v)]. *)
Definition truthy (v : num) : bool :=
  match v with
  | Num z => negb (z =? 0)
  | PosInf | NegInf => true
  | NaN | Undefined => false
  end.

(** [a <= b]; a comparison with NaN (or undefined, which converts to NaN)
    is false. *)
Definition le (a b : num) : bool :=
  match a, b with
  | Num x, Num y => x <=? y
  | NegInf, (Num _ | PosInf | NegInf) => true
  | (Num _ | PosInf), PosInf => true
  | _, _ => false
  end.

(** [a < b]. *)
Definition lt (a b : num) : bool :=
  match a, b with
  | Num x, Num y => x <? y
  | NegInf, (Num _ | PosInf) => true
  | Num _, PosInf => true
  | _, _ => false
  end.

(** [a + b]. *)
Definition add (a b : num) : num :=
  match a, b with
  | Num x, Num y => Num (x + y)
  | (NaN | Undefined), _ | _, (NaN | Undefined) => NaN
  | PosInf, NegInf | NegInf, PosInf => NaN
  | PosInf, _ | _, PosInf => PosInf
  | NegInf, _ | _, NegInf => NegInf
  end.

Definition isFinite (v : num) : bool :=
  match v with Num _ => true | _ => false end.

(** [Math.floor(a / b)].  On integers the quotient is rational and its
    floor is [Z.div] (for widths of the size a layout reports, the double
    quotient has the same floor); a zero divisor gives an infinity of the
    sign of the dividend, or NaN for 0/0. *)
Definition floor_div (a b : num) : num :=
  match a, b with
  | (NaN | Undefined), _ | _, (NaN | Undefined) => NaN
  | Num x, Num y =>
      if y =? 0 then
        if 0 <? x then PosInf else if x <? 0 then NegInf else NaN
      else Num (x / y)
  | Num _, (PosInf | NegInf) => Num 0
  | PosInf, Num y => if y <? 0 then NegInf else PosInf
  | NegInf, Num y => if y <? 0 then PosInf else NegInf
  | (PosInf | NegInf), (PosInf | NegInf) => NaN
  end.

(** [s || d] on an optional string: undefined and the empty string are
    falsy. *)
Definition or_else (s : option string) (d : string) : string :=
  match s with
  | Some x => if String.eqb x EmptyString then d else x
  | None => d
  end.

(** [xs[i]]: undefined outside the array. *)
Definition get {A} (xs : list A) (i : Z) : option A :=
  if i <? 0 then None else xs !! Z.to_nat i.

(** The errors the modelled code raises. *)
Inductive error := ReferenceError.

(** How a call ends: it returns a value, or it raises. *)
Inductive completion (A : Type) :=
| Returned (a : A)
| Thrown (e : error).

Arguments Returned {A} a.
Arguments Thrown {A} e.

End Js.

(** ** The document *)

Module Page.

Record t := mk {
  children : list node;   (* children of the .tf-grid element, in order *)
  focused : gset node;    (* elements whose class list has tf-focused *)
  scrolled : list node;   (* scrollIntoView requests, oldest first *)
  clicked : list node;    (* element.click() calls, oldest first *)
  created : node          (* tile elements created so far *)
}.

Definition empty : t := mk [] ∅ [] [] 0%nat.

(** [document.createElement("div")] *)
Definition createElement (p : t) : node * t :=
  (created p, mk (children p) (focused p) (scrolled p) (clicked p) (S (created p))).

(** [grid.appendChild(el)] *)
Definition appendChild (el : node) (p : t) : t :=
  mk (children p ++ [el]) (focused p) (scrolled p) (clicked p) (created p).

(** [grid.innerHTML] is set to the empty string. *)
Definition clearGrid (p : t) : t :=
  mk [] (focused p) (scrolled p) (clicked p) (created p).

(** [el.remove()] *)
Definition remove (el : node) (p : t) : t :=
  mk (filter (λ x, x ≠ el) (children p)) (focused p) (scrolled p) (clicked p) (created p).

(** [$(el).addClass("tf-focused")] (l.246 and l.249; no call reaches it,
    see [InputSystem.focus]). *)
Definition addClass (el : node) (p : t) : t :=
  mk (children p) ({[el]} ∪ focused p) (scrolled p) (clicked p) (created p).

(** [document.body.contains(el)]: the grid is in the document, and a tile
    element is in the document exactly while it is a child of the grid. *)
Definition contains (el : node) (p : t) : bool :=
  bool_decide (el ∈ children p).

(** [el.scrollIntoView({...})] (l.253; no call reaches it either). *)
Definition scrollIntoView (el : node) (p : t) : t :=
  mk (children p) (focused p) (scrolled p ++ [el]) (clicked p) (created p).

(** [el.click()] *)
Definition click (el : node) (p : t) : t :=
  mk (children p) (focused p) (scrolled p) (clicked p ++ [el]) (created p).

End Page.

(** Answers of the layout engine at the time of a call. *)
Record Layout := {
  containerWidth : Js.num;        (* this.container.offsetWidth *)
  offsetWidth : node → Js.num     (* el.offsetWidth of a tile element *)
}.

(** ** Entities *)

(** The properties object passed to [addEntity].  The [onClick] callback is
    code of the host and is not part of the model. *)
Record Props := {
  p_id : option string;
  p_title : option string;
  p_image : option string;
  p_subtitle : option string
}.

Module TileEntity.

Record t := mk {
  id : string;
  props : Props;
  element : node;
  isDirty : bool;
  title : string;
  image : string
}.

(** [new TileEntity(props)]: the [GameObject] constructor takes
    [props.id] or draws a random id ([rnd] is what
    [Math.random().toString(36).substr(2, 9)] evaluates to), then the
    element is created. *)
Definition new (p : Props) (rnd : string) (pg : Page.t) : t * Page.t :=
  let '(el, pg) := Page.createElement pg in
  (mk (Js.or_else (p_id p) rnd) p el true
      (Js.or_else (p_title p) "Unknown") (Js.or_else (p_image p) EmptyString),
   pg).

End TileEntity.

(** The arrays of the program, the document, and the entities whose
    [destroy()] has run (oldest first). *)
Record World := {
  heap : gmap loc (list TileEntity.t);
  page : Page.t;
  destroyed : list TileEntity.t
}.

Definition deref (h : gmap loc (list TileEntity.t)) (l : loc) : list TileEntity.t :=
  default [] (h !! l).

(** A new array object, from an array literal. *)
Definition alloc (xs : list TileEntity.t) (w : World) : loc * World :=
  let l := fresh (dom (heap w)) in
  (l, {| heap := <[l := xs]> (heap w); page := page w; destroyed := destroyed w |}).

(** [arr.push(x)] *)
Definition push (l : loc) (x : TileEntity.t) (w : World) : World :=
  {| heap := <[l := deref (heap w) l ++ [x]]> (heap w);
     page := page w; destroyed := destroyed w |}.

Definition with_page (pg : Page.t) (w : World) : World :=
  {| heap := heap w; page := pg; destroyed := destroyed w |}.

(** [GameObject.destroy]: [if (this.element) this.element.remove()]. *)
Definition destroy (e : TileEntity.t) (w : World) : World :=
  {| heap := heap w;
     page := Page.remove (TileEntity.element e) (page w);
     destroyed := destroyed w ++ [e] |}.

(** ** Input and camera system *)

Module InputSystem.

Record t := mk {
  focusedIndex : Z;
  items : loc;
  cols : Z;
  active : bool
}.

Definition set_focusedIndex (i : Z) (this : t) : t :=
  mk i (items this) (cols this) (active this).
Definition set_items (l : loc) (this : t) : t :=
  mk (focusedIndex this) l (cols this) (active this).
Definition set_cols (c : Z) (this : t) : t :=
  mk (focusedIndex this) (items this) c (active this).

(** The constructor: [focusedIndex = -1], [items = []], [cols = 1],
    [active = true]. *)
Definition new (w : World) : t * World :=
  let '(l, w) := alloc [] w in
  (mk (-1) l 1 true, w).

(** The inter-item gap of [calcMetrics]: [16 = gap]. *)
Definition GAP : Z := 16.

(** Lines 230-235 of [calcMetrics], as a function of the two measurements
    and the gap. *)
Definition columns (gap : Z) (gridW itemW : Js.num) : Z :=
  if negb (Js.truthy itemW) || Js.le itemW (Js.Num 0) then 1
  else
    let c := Js.floor_div gridW (Js.add itemW (Js.Num gap)) in
    if negb (Js.isFinite c) || Js.lt c (Js.Num 1) then 1
    else match c with Js.Num z => z | _ => 1 end.

Definition calcMetrics (L : Layout) (w : World) (this : t) : t :=
  match deref (heap w) (items this) with
  | [] => this
  | first :: _ =>
      let gridW := containerWidth L in
      let itemW := offsetWidth L (TileEntity.element first) in
      set_cols (columns GAP gridW itemW) this
  end.

(** [focus(index)], the state a call leaves.  The two index tests and the
    store to [focusedIndex] (l.239-243) run first.  Nothing after them
    changes the state: without an item at the index the guard of l.245 is
    false and its block is skipped; with one, the block's first statement
    raises (see [focus_completion]) before [addClass] and [scrollIntoView]
    are reached. *)
Definition focus (index : Z) (w : World) (this : t) : World * t :=
  let xs := deref (heap w) (items this) in
  let len := Z.of_nat (length xs) in
  let index := if index <? 0 then 0 else index in
  let index := if index >=? len then len - 1 else index in
  let this := set_focusedIndex index this in
  (w, this).

(** How a call of [focus] ends.  [target] is [this.items[index]] at the
    clamped index.  When it is defined, [target && target.element] holds (a
    [TileEntity] always carries its element) and the guarded block is
    entered; the second [const target] (l.248) is a declaration of that
    block, so the [target] which l.246 reads is the block's own, read
    before its declaration: ReferenceError.  When it is undefined the
    block is skipped and the call returns. *)
Definition focus_completion (index : Z) (w : World) (this : t) : Js.completion unit :=
  let xs := deref (heap w) (items this) in
  let len := Z.of_nat (length xs) in
  let index := if index <? 0 then 0 else index in
  let index := if index >=? len then len - 1 else index in
  match Js.get xs index with
  | Some target => Js.Thrown Js.ReferenceError
  | None => Js.Returned tt
  end.

Definition registerItems (arr : loc) (L : Layout) (w : World) (this : t) : World * t :=
  let this := set_items arr this in
  let this := calcMetrics L w this in
  if (0 <? Z.of_nat (length (deref (heap w) (items this)))) then
    focus 0 w (set_focusedIndex 0 this)
  else
    (w, set_focusedIndex (-1) this).

(** [focus(0)] is the last statement of its branch: an error it raises is
    the error of [registerItems]. *)
Definition registerItems_completion (arr : loc) (L : Layout) (w : World) (this : t)
  : Js.completion unit :=
  let this := set_items arr this in
  let this := calcMetrics L w this in
  if (0 <? Z.of_nat (length (deref (heap w) (items this)))) then
    focus_completion 0 w (set_focusedIndex 0 this)
  else
    Js.Returned tt.

Definition handleKey (key : string) (L : Layout) (w : World) (this : t) : World * t :=
  if negb (active this) then (w, this)
  else
    let this := calcMetrics L w this in
    if String.eqb key "ArrowRight" then focus (focusedIndex this + 1) w this
    else if String.eqb key "ArrowLeft" then focus (focusedIndex this - 1) w this
    else if String.eqb key "ArrowDown" then focus (focusedIndex this + cols this) w this
    else if String.eqb key "ArrowUp" then focus (focusedIndex this - cols this) w this
    else if String.eqb key "Enter" || String.eqb key " " then
      match Js.get (deref (heap w) (items this)) (focusedIndex this) with
      | Some e => (with_page (Page.click (TileEntity.element e) (page w)) w, this)
      | None => (w, this)
      end
    else (w, this).

(** Each arrow case ends with its call of [focus]; what the [onClick] of
    the host does on Enter or Space is not part of the model. *)
Definition handleKey_completion (key : string) (L : Layout) (w : World) (this : t)
  : Js.completion unit :=
  if negb (active this) then Js.Returned tt
  else
    let this := calcMetrics L w this in
    if String.eqb key "ArrowRight" then focus_completion (focusedIndex this + 1) w this
    else if String.eqb key "ArrowLeft" then focus_completion (focusedIndex this - 1) w this
    else if String.eqb key "ArrowDown" then
      focus_completion (focusedIndex this + cols this) w this
    else if String.eqb key "ArrowUp" then
      focus_completion (focusedIndex this - cols this) w this
    else Js.Returned tt.

End InputSystem.

(** ** The application *)

Module TileForgeApp.

Record t := mk {
  entities : loc;
  input : InputSystem.t
}.

(** The constructor, as far as the collection and the navigator go:
    [this.entities = []] and [this.input = new InputSystem(this.grid)]. *)
Definition new (w : World) : t * World :=
  let '(l, w) := alloc [] w in
  let '(inp, w) := InputSystem.new w in
  (mk l inp, w).

(** [addEntity(props)]: the value the call returns, or the error it raises,
    with the state it leaves.  An error of [registerItems] passes through
    and [return ent] is not reached. *)
Definition addEntity (p : Props) (rnd : string) (L : Layout) (w : World) (this : t)
  : Js.completion TileEntity.t * World * t :=
  let '(ent, pg) := TileEntity.new p rnd (page w) in
  let w := with_page pg w in
  let w := push (entities this) ent w in
  let w := with_page (Page.appendChild (TileEntity.element ent) (page w)) w in
  let registered :=
    InputSystem.registerItems_completion (entities this) L w (input this) in
  let '(w, inp) := InputSystem.registerItems (entities this) L w (input this) in
  (match registered with
   | Js.Returned _ => Js.Returned ent
   | Js.Thrown e => Js.Thrown e
   end,
   w, mk (entities this) inp).

(** The class body defines [clear] twice.  This is the first definition
    (lines 347-353), headed by the comment "Destroy all entities to clean
    up event listeners and references". *)
Definition clear_first (L : Layout) (w : World) (this : t) : World * t :=
  let w := foldl (λ w ent, destroy ent w) w (deref (heap w) (entities this)) in
  let w := with_page (Page.clearGrid (page w)) w in
  let '(l, w) := alloc [] w in
  let '(arg, w) := alloc [] w in
  let '(w, inp) := InputSystem.registerItems arg L w (input this) in
  (w, mk l inp).

(** The second definition (lines 355-359).  A class body that defines a
    method twice keeps the later definition, so this is the [clear] that
    a call reaches. *)
Definition clear (L : Layout) (w : World) (this : t) : World * t :=
  let w := with_page (Page.clearGrid (page w)) w in
  let '(l, w) := alloc [] w in
  let '(arg, w) := alloc [] w in
  let '(w, inp) := InputSystem.registerItems arg L w (input this) in
  (w, mk l inp).

End TileForgeApp.

(** ** The running system *)

Record Sys := {
  world : World;
  app : TileForgeApp.t
}.

Definition boot : Sys :=
  let '(a, w) := TileForgeApp.new {| heap := ∅; page := Page.empty; destroyed := [] |} in
  {| world := w; app := a |}.

(** What can happen to a running application: calls of its interface
    ([addEntity], [clear]), a registration of the collection with the
    navigator ([input.registerItems(entities)], the call [addEntity] makes),
    and the two window events the input system listens to. *)
Inductive event :=
| AddEntity (p : Props) (rnd : string)
| Clear
| RegisterAll
| KeyDown (key : string)
| Resize.

Definition with_input (inp : InputSystem.t) (a : TileForgeApp.t) : TileForgeApp.t :=
  TileForgeApp.mk (TileForgeApp.entities a) inp.

(** One event, as the state it leaves.  An error ends the call that raised
    it and undoes nothing: what the call stored before stays, and the next
    event finds it.  How a call ends is not part of [Sys]; it is given by
    the [..._completion] definitions and the first component of
    [addEntity]. *)
Definition step (L : Layout) (ev : event) (s : Sys) : Sys :=
  match ev with
  | AddEntity p rnd =>
      let '(_, w, a) := TileForgeApp.addEntity p rnd L (world s) (app s) in
      {| world := w; app := a |}
  | Clear =>
      let '(w, a) := TileForgeApp.clear L (world s) (app s) in
      {| world := w; app := a |}
  | RegisterAll =>
      let '(w, inp) :=
        InputSystem.registerItems (TileForgeApp.entities (app s)) L (world s)
          (TileForgeApp.input (app s)) in
      {| world := w; app := with_input inp (app s) |}
  | KeyDown key =>
      let '(w, inp) := InputSystem.handleKey key L (world s) (TileForgeApp.input (app s)) in
      {| world := w; app := with_input inp (app s) |}
  | Resize =>
      {| world := world s;
         app := with_input (InputSystem.calcMetrics L (world s) (TileForgeApp.input (app s))) (app s) |}
  end.

Definition run (evs : list (Layout * event)) (s : Sys) : Sys :=
  foldl (λ s le, step (fst le) (snd le) s) s evs.

(** The collection and the navigator as the interface shows them. *)
Definition collection (s : Sys) : list TileEntity.t :=
  deref (heap (world s)) (TileForgeApp.entities (app s)).
Definition navItems (s : Sys) : list TileEntity.t :=
  deref (heap (world s)) (InputSystem.items (TileForgeApp.input (app s))).
Definition focusedIndex (s : Sys) : Z :=
  InputSystem.focusedIndex (TileForgeApp.input (app s)).
Definition cols (s : Sys) : Z :=
  InputSystem.cols (TileForgeApp.input (app s)).

(** [clamp x lo hi] as the specification writes it. *)
Definition clamp (x lo hi : Z) : Z := Z.max lo (Z.min x hi).

(** The two index tests at the head of [focus], on their own. *)
Definition clampIndex (index len : Z) : Z :=
  let index := if index <? 0 then 0 else index in
  if index >=? len then len - 1 else index.

(** One press of the right arrow, as a state transformer. *)
Definition pressRight (L : Layout) (st : World * InputSystem.t) : World * InputSystem.t :=
  InputSystem.handleKey "ArrowRight" L st.1 st.2.

(** The directional mapping of the specification: the delta a key stands
    for, given the column count. *)
Definition arrowDelta (key : string) (cols : Z) : option Z :=
  if String.eqb key "ArrowRight" then Some 1
  else if String.eqb key "ArrowLeft" then Some (-1)
  else if String.eqb key "ArrowDown" then Some cols
  else if String.eqb key "ArrowUp" then Some (- cols)
  else None.

(** The navigator invariant of the specification for an index and a
    collection length: [-1] (none) on the empty collection, a valid index
    otherwise. *)
Definition focusValid (i : Z) (len : nat) : Prop :=
  match len with
  | O => i = -1
  | S _ => 0 ≤ i < Z.of_nat len
  end.

(** The sample widths for which the specification asks for one column:
    zero, negative, not finite, or unavailable. *)
Definition unusableWidth (v : Js.num) : bool :=
  match v with
  | Js.Num z => z <=? 0
  | Js.PosInf | Js.NegInf | Js.NaN | Js.Undefined => true
  end.

(** The state invariant: the focused index is valid for the collection, and
    the array the navigator reads holds what the collection holds. *)
Definition invariant (s : Sys) : Prop :=
  focusValid (focusedIndex s) (length (collection s))
  ∧ navItems s = collection s.

(** ** The scenario of the specification

    A container 1000px wide, items 200px wide, nine entities. *)

Definition scenarioLayout : Layout :=
  {| containerWidth := Js.Num 1000; offsetWidth := λ _, Js.Num 200 |}.

Definition tileProps (name : string) : Props :=
  {| p_id := Some name; p_title := Some name; p_image := None; p_subtitle := None |}.

Definition anonymousProps : Props :=
  {| p_id := None; p_title := None; p_image := None; p_subtitle := None |}.

Definition nineTiles : Sys :=
  run (replicate 9 (scenarioLayout, AddEntity anonymousProps "k3j9x0q2a")) boot.

Definition threeTiles : Sys :=
  run [(scenarioLayout, AddEntity (tileProps "a") "r1");
       (scenarioLayout, AddEntity (tileProps "b") "r2");
       (scenarioLayout, AddEntity (tileProps "c") "r3")] boot.

(** ** The modal dialog: [Forge] and [UIManager]

    Every [UIManager] appends one overlay to the body, with the same
    markup: a title, a body and a foot element carrying the ids
    [tf-m-title], [tf-m-body] and [tf-m-foot].  The document is modelled as
    far as these elements go: the overlays in body order, each with its
    class list and its three leaves; a leaf holds the markup last assigned
    to its [innerHTML] and the button elements appended since.  The host
    page and the markup passed in as title or content are taken to bring
    no element with one of the three ids.  The [action] callbacks of
    buttons are code of the host. *)

Module Ui.

Record Button := mkButton {
  node : nat;
  className : string;
  innerText : string
}.

Record Leaf := mkLeaf {
  markup : string;
  buttons : list Button
}.

Inductive leafId := Title | Body | Foot.

Record Overlay := mkOverlay {
  classes : gset string;
  title : Leaf;
  body : Leaf;
  foot : Leaf
}.

Record Doc := mkDoc {
  overlays : list Overlay;
  created : nat            (* button elements created so far *)
}.

Definition empty : Doc := mkDoc [] 0%nat.

Definition getLeaf (p : leafId) (o : Overlay) : Leaf :=
  match p with Title => title o | Body => body o | Foot => foot o end.

Definition alterLeaf (f : Leaf → Leaf) (p : leafId) (o : Overlay) : Overlay :=
  match p with
  | Title => mkOverlay (classes o) (f (title o)) (body o) (foot o)
  | Body => mkOverlay (classes o) (title o) (f (body o)) (foot o)
  | Foot => mkOverlay (classes o) (title o) (body o) (f (foot o))
  end.

Definition alterClasses (f : gset string → gset string) (o : Overlay) : Overlay :=
  mkOverlay (f (classes o)) (title o) (body o) (foot o).

(** [document.querySelectorAll(sel)] for the three id selectors: the
    matching element of every overlay, in document order. *)
Definition querySelectorAll (sel : string) (d : Doc) : list (nat * leafId) :=
  let all p := map (λ i, (i, p)) (seq 0 (length (overlays d))) in
  if String.eqb sel "#tf-m-title" then all Title
  else if String.eqb sel "#tf-m-body" then all Body
  else if String.eqb sel "#tf-m-foot" then all Foot
  else [].

(** [el.innerHTML = h]: the markup replaces whatever the element held. *)
Definition setInnerHTML (h : string) (el : nat * leafId) (d : Doc) : Doc :=
  mkDoc (alter (alterLeaf (λ _, mkLeaf h []) el.2) el.1 (overlays d)) (created d).

Definition withoutButton (n : nat) (l : Leaf) : Leaf :=
  mkLeaf (markup l) (filter (λ b, node b ≠ n) (buttons l)).

(** [el.appendChild(b)]: [b] leaves the parent it had, if any, and becomes
    the last child of [el]. *)
Definition appendChild (b : Button) (el : nat * leafId) (d : Doc) : Doc :=
  let detach o :=
    alterLeaf (withoutButton (node b)) Title
      (alterLeaf (withoutButton (node b)) Body
         (alterLeaf (withoutButton (node b)) Foot o)) in
  mkDoc (alter (alterLeaf (λ l, mkLeaf (markup l) (buttons l ++ [b])) el.2) el.1
           (map detach (overlays d)))
        (created d).

(** [document.createElement("button")] with the two properties [modal]
    sets on it. *)
Definition createButton (cls text : string) (d : Doc) : Button * Doc :=
  (mkButton (created d) cls text, mkDoc (overlays d) (S (created d))).

End Ui.

(** The methods of [Forge] that [UIManager] uses, over a selection [els]. *)
Module Forge.

(** [html(h)]: with [h] undefined it reads (the value read is not used by
    any caller here) and changes nothing; otherwise it assigns [h] to
    every element of the selection. *)
Definition html (h : option string) (els : list (nat * Ui.leafId)) (d : Ui.Doc) : Ui.Doc :=
  match h with
  | None => d
  | Some h => foldl (λ d el, Ui.setInnerHTML h el d) d els
  end.

(** [append(child)]: [appendChild] on every element of the selection in
    turn. *)
Definition append (child : Ui.Button) (els : list (nat * Ui.leafId)) (d : Ui.Doc) : Ui.Doc :=
  foldl (λ d el, Ui.appendChild child el d) d els.

(** [addClass(c)] and [removeClass(c)] on a selection of overlays. *)
Definition addClass (c : string) (els : list nat) (d : Ui.Doc) : Ui.Doc :=
  foldl (λ d i, Ui.mkDoc (alter (Ui.alterClasses (λ cs, {[c]} ∪ cs)) i (Ui.overlays d))
                  (Ui.created d)) d els.

Definition removeClass (c : string) (els : list nat) (d : Ui.Doc) : Ui.Doc :=
  foldl (λ d i, Ui.mkDoc (alter (Ui.alterClasses (λ cs, cs ∖ {[c]})) i (Ui.overlays d))
                  (Ui.created d)) d els.

End Forge.

(** An entry of the [buttons] array of [modal]. *)
Record ButtonSpec := {
  b_label : string;
  b_type : option string
}.

Module UIManager.

Record t := mk {
  modalEl : nat            (* the overlay of this manager, by body order *)
}.

(** The constructor, through [createModalDOM]: a new overlay at the end of
    the body. *)
Definition new (d : Ui.Doc) : t * Ui.Doc :=
  (mk (length (Ui.overlays d)),
   Ui.mkDoc (Ui.overlays d
             ++ [Ui.mkOverlay {["tf-modal-overlay"]}
                   (Ui.mkLeaf EmptyString []) (Ui.mkLeaf EmptyString [])
                   (Ui.mkLeaf EmptyString [])])
     (Ui.created d)).

Definition modal (title contentHtml : option string) (buttons : list ButtonSpec)
    (this : t) (d : Ui.Doc) : Ui.Doc :=
  let d := Forge.html title (Ui.querySelectorAll "#tf-m-title" d) d in
  let d := Forge.html contentHtml (Ui.querySelectorAll "#tf-m-body" d) d in
  let foot := Ui.querySelectorAll "#tf-m-foot" d in
  let d := Forge.html (Some EmptyString) foot d in
  let d :=
    foldl (λ d btn,
             let '(b, d) :=
               Ui.createButton ("tf-btn " ++ Js.or_else (b_type btn) "primary")
                 (b_label btn) d in
             Forge.append b foot d)
          d buttons in
  Forge.addClass "active" [modalEl this] d.

Definition closeModal (this : t) (d : Ui.Doc) : Ui.Doc :=
  Forge.removeClass "active" [modalEl this] d.

End UIManager.

(** Every button in the document was created: its node is below the
    counter. *)
Definition uiWellFormed (d : Ui.Doc) : Prop :=
  ∀ o p b, o ∈ Ui.overlays d → b ∈ Ui.buttons (Ui.getLeaf p o) →
           (Ui.node b < Ui.created d)%nat.

(** The buttons [modal] makes from its [buttons] argument, the first with
    node [n]. *)
Fixpoint madeButtons (n : nat) (specs : list ButtonSpec) : list Ui.Button :=
  match specs with
  | [] => []
  | s :: specs =>
      Ui.mkButton n ("tf-btn " ++ Js.or_else (b_type s) "primary") (b_label s)
      :: madeButtons (S n) specs
  end.

(** A page with two applications, hence two managers and two overlays. *)
Definition twoManagers : UIManager.t * UIManager.t * Ui.Doc :=
  let '(m1, d) := UIManager.new Ui.empty in
  let '(m2, d) := UIManager.new d in
  (m1, m2, d).

Definition okCancel : list ButtonSpec :=
  [ {| b_label := "OK"; b_type := None |};
    {| b_label := "Cancel"; b_type := Some "secondary" |} ].


(** ** Further notions used to state properties of reachable states *)

(** What holds of every state the application reaches, besides [invariant]:
    the column count is at least 1, the input system is active, the grid's
    children are the elements of the collection in order and without
    repetition, every element was created, the collection's array is
    allocated, and no element carries the focus class or was scrolled to. *)
Definition consistent (s : Sys) : Prop :=
  invariant s
  ∧ 1 ≤ cols s
  ∧ InputSystem.active (TileForgeApp.input (app s)) = true
  ∧ Page.children (page (world s)) = map TileEntity.element (collection s)
  ∧ NoDup (Page.children (page (world s)))
  ∧ (∀ n : node, n ∈ Page.children (page (world s)) →
       (n < Page.created (page (world s)))%nat)
  ∧ is_Some (heap (world s) !! TileForgeApp.entities (app s))
  ∧ Page.focused (page (world s)) = ∅
  ∧ Page.scrolled (page (world s)) = [].

(** One press of a key, as a state transformer (cf. [pressRight]). *)
Definition press (key : string) (L : Layout) (st : World * InputSystem.t)
  : World * InputSystem.t :=
  InputSystem.handleKey key L st.1 st.2.

(** The keys whose case in [handleKey] calls [focus]. *)
Definition arrowKey (key : string) : bool :=
  String.eqb key "ArrowRight" || String.eqb key "ArrowLeft"
  || String.eqb key "ArrowDown" || String.eqb key "ArrowUp".

(** The keys [handleKey] has a case for. *)
Definition handledKey (key : string) : bool :=
  String.eqb key "ArrowRight" || String.eqb key "ArrowLeft"
  || String.eqb key "ArrowDown" || String.eqb key "ArrowUp"
  || String.eqb key "Enter" || String.eqb key " ".

(** The world in the middle of [addEntity]: the entity is constructed,
    pushed and attached, the navigator not yet told. *)
Definition attached (p : Props) (rnd : string) (w : World) (this : TileForgeApp.t)
  : World :=
  let '(ent, pg) := TileEntity.new p rnd (page w) in
  let w := with_page pg w in
  let w := push (TileForgeApp.entities this) ent w in
  with_page (Page.appendChild (TileEntity.element ent) (page w)) w.

(** The states that differ from [(w, this)] in the focused index, the
    column count and the page only. *)
Definition sameArray (w : World) (this : InputSystem.t)
    (st : World * InputSystem.t) : Prop :=
  heap st.1 = heap w
  ∧ InputSystem.items st.2 = InputSystem.items this
  ∧ InputSystem.active st.2 = true.

(** * Properties *)

(** ** The index arithmetic of [focus] *)

Lemma clampIndex_nonempty index len :
  1 ≤ len → clampIndex index len = clamp index 0 (len - 1).
Proof.
  intros Hlen. unfold clampIndex, clamp.
  destruct (Z.ltb_spec index 0); destruct (Z.geb_spec 0 len);
    try destruct (Z.geb_spec index len); lia.
Qed.

Lemma clampIndex_empty index : clampIndex index 0 = -1.
Proof.
  unfold clampIndex.
  destruct (Z.ltb_spec index 0); [reflexivity|].
  destruct (Z.geb_spec index 0); lia.
Qed.

Section Focus.

Variables (w : World) (this : InputSystem.t).

Let xs := deref (heap w) (InputSystem.items this).
Let n := Z.of_nat (length xs).

Lemma focus_nav index :
  (InputSystem.focus index w this).2
  = InputSystem.set_focusedIndex (clampIndex index n) this.
Proof. reflexivity. Qed.

(** [focus] leaves the world as it was. *)
Lemma focus_world_same index : (InputSystem.focus index w this).1 = w.
Proof. reflexivity. Qed.

Lemma focus_heap index :
  heap (InputSystem.focus index w this).1 = heap w.
Proof. reflexivity. Qed.

Lemma focus_destroyed index :
  destroyed (InputSystem.focus index w this).1 = destroyed w.
Proof. reflexivity. Qed.

(** Inside the array, [xs[i]] is defined. *)
Lemma get_in_range (i : Z) :
  0 ≤ i < n → ∃ e, Js.get xs i = Some e ∧ xs !! Z.to_nat i = Some e.
Proof.
  intros Hi. unfold Js.get.
  destruct (Z.ltb_spec i 0); [lia|].
  destruct (lookup_lt_is_Some_2 xs (Z.to_nat i)) as [e He]; [subst n; lia|].
  eauto.
Qed.

(** With nothing registered, [focus] changes nothing but the index, which
    it sets to [-1]. *)
Lemma focus_empty index :
  xs = [] →
  InputSystem.focus index w this = (w, InputSystem.set_focusedIndex (-1) this).
Proof.
  intros Hxs.
  rewrite (surjective_pairing (InputSystem.focus index w this)), focus_nav.
  rewrite focus_world_same. subst n. rewrite Hxs. simpl.
  by rewrite clampIndex_empty.
Qed.

End Focus.

(** [focus] raises exactly when it indexes a non-empty array. *)
Lemma focus_completion_spec index w this :
  InputSystem.focus_completion index w this
  = match deref (heap w) (InputSystem.items this) with
    | [] => Js.Returned tt
    | _ :: _ => Js.Thrown Js.ReferenceError
    end.
Proof.
  unfold InputSystem.focus_completion.
  set (n := Z.of_nat (length (deref (heap w) (InputSystem.items this)))).
  change (if (if index <? 0 then 0 else index) >=? n then n - 1
          else if index <? 0 then 0 else index) with (clampIndex index n).
  destruct (deref (heap w) (InputSystem.items this)) as [|e rest] eqn:Hxs.
  - unfold Js.get. rewrite lookup_nil. by destruct (_ <? _).
  - assert (Hn : 1 ≤ n) by (subst n; simpl length; lia).
    rewrite clampIndex_nonempty by done.
    destruct (get_in_range w this (clamp index 0 (n - 1))) as (e' & Hget & _).
    { rewrite Hxs. fold n. unfold clamp. lia. }
    rewrite Hxs in Hget. by rewrite Hget.
Qed.

(** ** Metrics leave the navigator alone *)

Lemma calcMetrics_fields L w this :
  InputSystem.focusedIndex (InputSystem.calcMetrics L w this) = InputSystem.focusedIndex this
  ∧ InputSystem.items (InputSystem.calcMetrics L w this) = InputSystem.items this
  ∧ InputSystem.active (InputSystem.calcMetrics L w this) = InputSystem.active this.
Proof.
  unfold InputSystem.calcMetrics.
  by destruct (deref (heap w) (InputSystem.items this)).
Qed.

Lemma calcMetrics_empty L w this :
  deref (heap w) (InputSystem.items this) = [] →
  InputSystem.calcMetrics L w this = this.
Proof. intros H. unfold InputSystem.calcMetrics. by rewrite H. Qed.

(** ** Key handling *)

(** An arrow key is a [focus] at the current index plus the key's delta,
    after the metrics have been recomputed. *)
Lemma handleKey_arrow key d L w this :
  InputSystem.active this = true →
  arrowDelta key (InputSystem.cols (InputSystem.calcMetrics L w this)) = Some d →
  InputSystem.handleKey key L w this
  = InputSystem.focus (InputSystem.focusedIndex this + d) w (InputSystem.calcMetrics L w this).
Proof.
  intros Hact Hd. unfold InputSystem.handleKey. rewrite Hact. simpl.
  destruct (calcMetrics_fields L w this) as (-> & _ & _).
  unfold arrowDelta in Hd.
  repeat (destruct (String.eqb key _); [by injection Hd as <-|]).
  discriminate.
Qed.

Lemma focus_after_metrics index L w this :
  InputSystem.focusedIndex (InputSystem.focus index w (InputSystem.calcMetrics L w this)).2
  = clampIndex index (Z.of_nat (length (deref (heap w) (InputSystem.items this)))).
Proof.
  rewrite focus_nav. simpl.
  by destruct (calcMetrics_fields L w this) as (_ & -> & _).
Qed.

(** A press of the right arrow keeps the heap, the registered array and the
    active flag, and moves the index one step, clamped. *)
Lemma pressRight_spec L w this :
  InputSystem.active this = true →
  let st := pressRight L (w, this) in
  heap st.1 = heap w
  ∧ InputSystem.items st.2 = InputSystem.items this
  ∧ InputSystem.active st.2 = true
  ∧ InputSystem.focusedIndex st.2
    = clampIndex (InputSystem.focusedIndex this + 1)
        (Z.of_nat (length (deref (heap w) (InputSystem.items this)))).
Proof.
  intros Hact. unfold pressRight. simpl.
  rewrite (handleKey_arrow "ArrowRight" 1) by done.
  rewrite focus_heap, focus_nav. simpl.
  destruct (calcMetrics_fields L w this) as (_ & -> & ->).
  done.
Qed.

Lemma pressRight_iter L w this (k : nat) :
  InputSystem.active this = true →
  let n := Z.of_nat (length (deref (heap w) (InputSystem.items this))) in
  1 ≤ n → 0 ≤ InputSystem.focusedIndex this < n →
  let st := Nat.iter k (pressRight L) (w, this) in
  heap st.1 = heap w
  ∧ InputSystem.items st.2 = InputSystem.items this
  ∧ InputSystem.active st.2 = true
  ∧ InputSystem.focusedIndex st.2
    = Z.min (InputSystem.focusedIndex this + Z.of_nat k) (n - 1).
Proof.
  intros Hact n Hn Hi. induction k as [|k IH]; simpl.
  - repeat split; [done|lia].
  - destruct IH as (Hh & Hit & Ha & Hf).
    destruct (Nat.iter k (pressRight L) (w, this)) as [w' t'] eqn:E. simpl in *.
    destruct (pressRight_spec L w' t' Ha) as (Hh' & Hit' & Ha' & Hf').
    rewrite Hh', Hit', Ha', Hf', Hh, Hit, Hf. fold n.
    repeat split; try done.
    rewrite clampIndex_nonempty by done. unfold clamp. lia.
Qed.

(** A key press raises exactly when the input system is active, the key is
    an arrow and the registered array is not empty. *)
Lemma handleKey_completion_spec key L w this :
  InputSystem.handleKey_completion key L w this
  = if InputSystem.active this && arrowKey key then
      match deref (heap w) (InputSystem.items this) with
      | [] => Js.Returned tt
      | _ :: _ => Js.Thrown Js.ReferenceError
      end
    else Js.Returned tt.
Proof.
  unfold InputSystem.handleKey_completion, arrowKey.
  destruct (InputSystem.active this); cbn [negb andb]; [|done].
  destruct (calcMetrics_fields L w this) as (_ & Hi & _).
  rewrite !focus_completion_spec, Hi.
  by repeat (destruct (String.eqb key _); cbn [orb]; [done|]).
Qed.

Lemma arrowDelta_arrowKey key c d : arrowDelta key c = Some d → arrowKey key = true.
Proof.
  unfold arrowDelta, arrowKey.
  by repeat (destruct (String.eqb key _); cbn [orb]; [done|]).
Qed.

(** C1. In [Focused(i)] over a collection of length [n >= 1], a move by
    [delta] (a call of [focus] at [i + delta], which is what each arrow key
    makes after recomputing the metrics) stores
    [clamp (i + delta) 0 (n - 1)] as the focused index: the four arrow keys
    clamp at both ends, [k] presses of the right arrow reach
    [min (i + k) (n - 1)] and stay at the last index, the up arrow from
    [i < cols] gives index 0.  Every such move raises, though, at a
    boundary or not: with the index stored, [focus] finds the item and
    ends in a ReferenceError, and so does the arrow key that called it.
    On the empty collection (index [-1]) every key leaves the whole state
    unchanged and raises nothing. *)
Theorem C1_move_clamps (L : Layout) (w : World) (this : InputSystem.t) :
  InputSystem.active this = true →
  let xs := deref (heap w) (InputSystem.items this) in
  let n := Z.of_nat (length xs) in
  let i := InputSystem.focusedIndex this in
  let c := InputSystem.cols (InputSystem.calcMetrics L w this) in
  let after key := InputSystem.focusedIndex (InputSystem.handleKey key L w this).2 in
  (1 ≤ n → 0 ≤ i < n →
     (∀ delta, InputSystem.focusedIndex (InputSystem.focus (i + delta) w this).2
               = clamp (i + delta) 0 (n - 1))
     ∧ (∀ key delta, arrowDelta key c = Some delta →
          after key = clamp (i + delta) 0 (n - 1))
     ∧ after "ArrowRight" = clamp (i + 1) 0 (n - 1)
     ∧ after "ArrowLeft" = clamp (i - 1) 0 (n - 1)
     ∧ after "ArrowDown" = clamp (i + c) 0 (n - 1)
     ∧ after "ArrowUp" = clamp (i - c) 0 (n - 1)
     ∧ (∀ k : nat, InputSystem.focusedIndex (Nat.iter k (pressRight L) (w, this)).2
                   = Z.min (i + Z.of_nat k) (n - 1))
     ∧ (i = n - 1 → after "ArrowRight" = i)
     ∧ (i < c → after "ArrowUp" = 0)
     ∧ (∀ delta, InputSystem.focus_completion (i + delta) w this
                 = Js.Thrown Js.ReferenceError)
     ∧ (∀ key delta, arrowDelta key c = Some delta →
          InputSystem.handleKey_completion key L w this
          = Js.Thrown Js.ReferenceError))
  ∧ (xs = [] → i = -1 →
     ∀ key, InputSystem.handleKey key L w this = (w, this)
            ∧ InputSystem.handleKey_completion key L w this = Js.Returned tt).
Proof.
  intros Hact xs n i c after. split.
  - intros Hn Hi.
    assert (Hkey : ∀ key delta, arrowDelta key c = Some delta →
                     after key = clamp (i + delta) 0 (n - 1)).
    { intros key delta Hd. unfold after.
      rewrite (handleKey_arrow key delta) by done.
      rewrite focus_after_metrics. by apply clampIndex_nonempty. }
    assert (Hr : after "ArrowRight" = clamp (i + 1) 0 (n - 1)) by by apply Hkey.
    assert (Hu : after "ArrowUp" = clamp (i - c) 0 (n - 1)) by by apply Hkey.
    assert (Hxs : ∃ e rest, xs = e :: rest).
    { destruct xs as [|e rest] eqn:E; [simpl in n; lia|by eexists _, _]. }
    destruct Hxs as (e & rest & Hxs). subst xs.
    repeat split.
    + intros delta. rewrite focus_nav. simpl. by apply clampIndex_nonempty.
    + exact Hkey.
    + exact Hr.
    + by apply Hkey.
    + by apply Hkey.
    + exact Hu.
    + intros k. by destruct (pressRight_iter L w this k Hact Hn Hi) as (_ & _ & _ & ->).
    + intros Hlast. rewrite Hr. unfold clamp. lia.
    + intros Hlt. rewrite Hu. unfold clamp. lia.
    + intros delta. by rewrite focus_completion_spec, Hxs.
    + intros key delta Hd.
      rewrite handleKey_completion_spec, Hact, (arrowDelta_arrowKey _ _ _ Hd), Hxs.
      done.
  - intros Hxs Hi key. split.
    + unfold InputSystem.handleKey. rewrite Hact. simpl.
      rewrite (calcMetrics_empty L w this Hxs).
      fold xs. rewrite Hxs.
      assert (Hsame : InputSystem.set_focusedIndex (-1) this = this).
      { destruct this as [fi it cl ac]. simpl in *. subst i. simpl in Hi. by rewrite Hi. }
      rewrite !(focus_empty w this _ Hxs), Hsame.
      unfold Js.get. rewrite lookup_nil.
      destruct (InputSystem.focusedIndex this <? 0);
        repeat (destruct (String.eqb key _); simpl; try done).
    + rewrite handleKey_completion_spec. fold xs. rewrite Hxs.
      by destruct (_ && _).
Qed.

(** The scenario of the specification: nine tiles, four columns, focus at 0;
    the down arrow stores 4 and twelve right arrows stop at 8; the down
    arrow raises. *)
Lemma C1_move_clamps_witness :
  let w := world nineTiles in
  let this := TileForgeApp.input (app nineTiles) in
  InputSystem.active this = true
  ∧ 1 ≤ Z.of_nat (length (deref (heap w) (InputSystem.items this)))
  ∧ InputSystem.focusedIndex this = 0
  ∧ InputSystem.focusedIndex (InputSystem.handleKey "ArrowDown" scenarioLayout w this).2
    = clamp (0 + 4) 0 (9 - 1)
  ∧ InputSystem.focusedIndex
      (Nat.iter 12 (pressRight scenarioLayout) (w, this)).2 = 8
  ∧ InputSystem.handleKey_completion "ArrowDown" scenarioLayout w this
    = Js.Thrown Js.ReferenceError.
Proof.
  intros w this.
  assert (Hact : InputSystem.active this = true) by (vm_compute; reflexivity).
  assert (Hn : 1 ≤ Z.of_nat (length (deref (heap w) (InputSystem.items this))))
    by (vm_compute; discriminate).
  assert (Hfi : InputSystem.focusedIndex this = 0) by (vm_compute; reflexivity).
  pose proof (C1_move_clamps scenarioLayout w this Hact) as H.
  cbv zeta in H. destruct H as [H _].
  specialize (H Hn ltac:(vm_compute; split; [discriminate|reflexivity])).
  destruct H as (_ & _ & _ & _ & Hdown & _ & Hiter & _ & _ & _ & Hraise).
  split; [exact Hact|]. split; [exact Hn|]. split; [exact Hfi|].
  split; [rewrite Hdown; vm_compute; reflexivity|].
  split; [rewrite Hiter; vm_compute; reflexivity|].
  apply (Hraise "ArrowDown" 4). vm_compute. reflexivity.
Defined.

(** ** Registration *)

Lemma registerItems_spec arr L w this :
  let st := InputSystem.registerItems arr L w this in
  InputSystem.items st.2 = arr
  ∧ heap st.1 = heap w
  ∧ destroyed st.1 = destroyed w
  ∧ InputSystem.active st.2 = InputSystem.active this
  ∧ InputSystem.focusedIndex st.2
    = match deref (heap w) arr with [] => -1 | _ :: _ => 0 end.
Proof.
  unfold InputSystem.registerItems.
  set (this1 := InputSystem.calcMetrics L w (InputSystem.set_items arr this)).
  destruct (calcMetrics_fields L w (InputSystem.set_items arr this))
    as (_ & Hitems & Hactive).
  fold this1 in Hitems, Hactive. simpl in Hitems, Hactive.
  rewrite Hitems.
  destruct (deref (heap w) arr) as [|e xs] eqn:Harr.
  - change (0 <? Z.of_nat (length (@nil TileEntity.t))) with false.
    cbn [fst snd InputSystem.items InputSystem.active InputSystem.focusedIndex
         InputSystem.set_focusedIndex].
    by rewrite Hitems, Hactive.
  - change (0 <? Z.of_nat (length (e :: xs))) with true. cbv iota.
    rewrite focus_heap, focus_destroyed, focus_nav.
    cbn [InputSystem.items InputSystem.active InputSystem.focusedIndex
         InputSystem.set_focusedIndex].
    rewrite Hitems, Hactive, Harr.
    repeat split; done.
Qed.

(** [registerItems] raises exactly on a non-empty array. *)
Lemma registerItems_completion_spec arr L w this :
  InputSystem.registerItems_completion arr L w this
  = match deref (heap w) arr with
    | [] => Js.Returned tt
    | _ :: _ => Js.Thrown Js.ReferenceError
    end.
Proof.
  unfold InputSystem.registerItems_completion.
  destruct (calcMetrics_fields L w (InputSystem.set_items arr this)) as (_ & Hi & _).
  simpl in Hi. rewrite Hi.
  destruct (deref (heap w) arr) as [|e xs] eqn:Harr; [done|].
  change (0 <? Z.of_nat (length (e :: xs))) with true. cbv iota.
  rewrite focus_completion_spec.
  cbn [InputSystem.items InputSystem.set_focusedIndex]. by rewrite Hi, Harr.
Qed.

(** C2. Whatever the navigator held before, [registerItems] leaves it on the
    given array with the focused index [-1] (Empty) when the array has
    length 0 and [0] (Focused(0)) when it has any length above 0. *)
Theorem C2_register_resets (arr : loc) (L : Layout) (w : World) (this : InputSystem.t) :
  let st := InputSystem.registerItems arr L w this in
  InputSystem.items st.2 = arr
  ∧ deref (heap st.1) arr = deref (heap w) arr
  ∧ InputSystem.focusedIndex st.2
    = (if Nat.eqb (length (deref (heap w) arr)) 0 then -1 else 0)
  ∧ focusValid (InputSystem.focusedIndex st.2) (length (deref (heap st.1) arr)).
Proof.
  destruct (registerItems_spec arr L w this) as (Hi & Hh & _ & _ & Hf).
  simpl. rewrite Hi, Hh, Hf.
  destruct (deref (heap w) arr); simpl; repeat split; lia.
Qed.

(** ** Grid metrics *)

(** C9. With no item registered, [calcMetrics] returns at once: the input
    system, and with it the stored column count, is what it was before the
    call, for every prior column count and every layout; the same holds
    for the recomputation a resize or a registration of the empty array
    triggers. *)
Theorem C9_metrics_empty_noop (L : Layout) (w : World) (this : InputSystem.t) :
  deref (heap w) (InputSystem.items this) = [] →
  InputSystem.calcMetrics L w this = this
  ∧ InputSystem.cols (InputSystem.calcMetrics L w this) = InputSystem.cols this
  ∧ InputSystem.cols (InputSystem.registerItems (InputSystem.items this) L w this).2
    = InputSystem.cols this.
Proof.
  intros Hempty.
  assert (Hsame : InputSystem.calcMetrics L w this = this)
    by (unfold InputSystem.calcMetrics; by rewrite Hempty).
  repeat split; [done|by rewrite Hsame|].
  unfold InputSystem.registerItems.
  assert (Hset : InputSystem.set_items (InputSystem.items this) this = this)
    by by destruct this.
  by rewrite Hset, Hsame, Hempty.
Qed.

(** A freshly built application with a column count of 7 keeps it. *)
Lemma C9_metrics_empty_noop_witness :
  let w := world boot in
  let this := InputSystem.set_cols 7 (TileForgeApp.input (app boot)) in
  deref (heap w) (InputSystem.items this) = []
  ∧ InputSystem.cols (InputSystem.calcMetrics scenarioLayout w this) = 7.
Proof.
  intros w this.
  assert (Hempty : deref (heap w) (InputSystem.items this) = [])
    by (vm_compute; reflexivity).
  split; [exact Hempty|].
  destruct (C9_metrics_empty_noop scenarioLayout w this Hempty) as (_ & -> & _).
  reflexivity.
Defined.

(** C5. For a positive container width, a positive sample item width and a
    gap that is not negative, the column count is the floor of
    [containerWidth / (itemWidth + gap)], raised to 1 when the quotient is
    below 1, so never less than 1; [calcMetrics] stores that count for its
    gap of 16 whenever an item is registered. *)
Theorem C5_columns_floor (gap g iw : Z) :
  0 < g → 0 < iw → 0 ≤ gap →
  InputSystem.columns gap (Js.Num g) (Js.Num iw) = Z.max 1 (g / (iw + gap))
  ∧ 1 ≤ InputSystem.columns gap (Js.Num g) (Js.Num iw)
  ∧ ∀ (L : Layout) (w : World) (this : InputSystem.t) first rest,
      deref (heap w) (InputSystem.items this) = first :: rest →
      containerWidth L = Js.Num g →
      offsetWidth L (TileEntity.element first) = Js.Num iw →
      InputSystem.cols (InputSystem.calcMetrics L w this) = Z.max 1 (g / (iw + 16)).
Proof.
  intros Hg Hiw Hgap.
  assert (Hcol : ∀ gp, 0 ≤ gp →
            InputSystem.columns gp (Js.Num g) (Js.Num iw) = Z.max 1 (g / (iw + gp))).
  { intros gp Hgp. unfold InputSystem.columns. simpl.
    destruct (Z.eqb_spec iw 0); [lia|].
    destruct (Z.leb_spec iw 0); [lia|]. simpl.
    destruct (Z.eqb_spec (iw + gp) 0); [lia|]. simpl.
    destruct (Z.ltb_spec (g / (iw + gp)) 1); lia. }
  split; [by apply Hcol|]. split; [rewrite Hcol by done; lia|].
  intros L w this first rest Hitems HL Hfirst.
  unfold InputSystem.calcMetrics. rewrite Hitems. simpl.
  rewrite HL, Hfirst. apply Hcol. unfold InputSystem.GAP. lia.
Qed.

(** 1000px of container and 200px items with the gap of 16: four columns. *)
Lemma C5_columns_floor_witness :
  0 < 1000 ∧ 0 < 200 ∧ 0 ≤ 16
  ∧ InputSystem.columns 16 (Js.Num 1000) (Js.Num 200) = 4
  ∧ InputSystem.cols (InputSystem.calcMetrics scenarioLayout (world nineTiles)
                        (TileForgeApp.input (app nineTiles))) = 4.
Proof.
  assert (H1 : 0 < 1000) by lia.
  assert (H2 : 0 < 200) by lia.
  assert (H3 : 0 ≤ 16) by lia.
  destruct (C5_columns_floor 16 1000 200 H1 H2 H3) as (Hc & _ & Hm).
  split; [exact H1|]. split; [exact H2|]. split; [exact H3|]. split.
  - rewrite Hc. reflexivity.
  - destruct (deref (heap (world nineTiles))
                (InputSystem.items (TileForgeApp.input (app nineTiles))))
      as [|first rest] eqn:E; [vm_compute in E; discriminate|].
    rewrite (Hm scenarioLayout _ _ first rest E eq_refl eq_refl). reflexivity.
Defined.

(** C6. For a sample item width that is zero, negative, not finite or
    unavailable, the column count is exactly 1, for every container width
    and every gap; [calcMetrics] stores 1 whenever the first registered
    item measures so. *)
Theorem C6_columns_default (gap : Z) (gridW itemW : Js.num) :
  unusableWidth itemW = true →
  InputSystem.columns gap gridW itemW = 1
  ∧ ∀ (L : Layout) (w : World) (this : InputSystem.t) first rest,
      deref (heap w) (InputSystem.items this) = first :: rest →
      offsetWidth L (TileEntity.element first) = itemW →
      InputSystem.cols (InputSystem.calcMetrics L w this) = 1.
Proof.
  intros Hbad.
  assert (Hcol : ∀ gp gw, InputSystem.columns gp gw itemW = 1).
  { intros gp gw. unfold InputSystem.columns.
    destruct itemW as [z| | | |]; simpl in *; try done.
    - destruct (Z.leb_spec z 0); [|done]. by rewrite orb_true_r.
    - by destruct gw. }
  split; [apply Hcol|].
  intros L w this first rest Hitems Hfirst.
  unfold InputSystem.calcMetrics. rewrite Hitems. simpl.
  rewrite Hfirst. apply Hcol.
Qed.

(** An infinite, a zero and a missing width all give one column. *)
Lemma C6_columns_default_witness :
  unusableWidth Js.PosInf = true
  ∧ InputSystem.columns 16 (Js.Num 1000) Js.PosInf = 1
  ∧ InputSystem.columns 16 (Js.Num 1000) (Js.Num 0) = 1
  ∧ InputSystem.columns 16 (Js.Num 1000) Js.Undefined = 1.
Proof.
  split; [reflexivity|]. split; [|split].
  - exact (proj1 (C6_columns_default 16 (Js.Num 1000) Js.PosInf eq_refl)).
  - exact (proj1 (C6_columns_default 16 (Js.Num 1000) (Js.Num 0) eq_refl)).
  - exact (proj1 (C6_columns_default 16 (Js.Num 1000) Js.Undefined eq_refl)).
Defined.

(** ** The heap of arrays *)

Lemma alloc_deref_new xs w :
  deref (heap (alloc xs w).2) (alloc xs w).1 = xs.
Proof. unfold alloc, deref. simpl. by rewrite lookup_insert_eq. Qed.

Lemma alloc_fresh xs w : heap w !! (alloc xs w).1 = None.
Proof. unfold alloc. simpl. apply not_elem_of_dom, is_fresh. Qed.

Lemma alloc_deref_old xs w l :
  is_Some (heap w !! l) →
  deref (heap (alloc xs w).2) l = deref (heap w) l.
Proof.
  intros Hl. unfold deref, alloc. simpl.
  rewrite lookup_insert_ne; [done|].
  intros Heq. apply (is_fresh (dom (heap w))).
  rewrite Heq. by apply elem_of_dom.
Qed.

Lemma alloc_destroyed xs w : destroyed (alloc xs w).2 = destroyed w.
Proof. done. Qed.

(** ** Adding an entity *)

Lemma addEntity_spec p rnd L w this :
  let r := TileForgeApp.addEntity p rnd L w this in
  let ent := (TileEntity.new p rnd (page w)).1 in
  r.1.1 = Js.Thrown Js.ReferenceError
  ∧ TileEntity.id ent = Js.or_else (p_id p) rnd
  ∧ TileForgeApp.entities r.2 = TileForgeApp.entities this
  ∧ InputSystem.items (TileForgeApp.input r.2) = TileForgeApp.entities this
  ∧ deref (heap r.1.2) (TileForgeApp.entities this)
    = deref (heap w) (TileForgeApp.entities this) ++ [ent]
  ∧ InputSystem.focusedIndex (TileForgeApp.input r.2) = 0
  ∧ destroyed r.1.2 = destroyed w.
Proof.
  unfold TileForgeApp.addEntity, TileEntity.new. simpl.
  set (ent := TileEntity.mk _ _ _ _ _ _).
  set (w1 := with_page _ (push _ _ _)).
  destruct (registerItems_spec (TileForgeApp.entities this) L w1 (TileForgeApp.input this))
    as (Hi & Hh & Hd & _ & Hf).
  pose proof (registerItems_completion_spec (TileForgeApp.entities this) L w1
                (TileForgeApp.input this)) as Hc.
  destruct (InputSystem.registerItems _ L w1 _) as [w2 inp] eqn:E.
  cbn [fst snd TileForgeApp.input TileForgeApp.entities] in *.
  assert (Hpush : deref (heap w1) (TileForgeApp.entities this)
                  = deref (heap w) (TileForgeApp.entities this) ++ [ent])
    by (subst w1; simpl; unfold deref; simpl; by rewrite lookup_insert_eq).
  rewrite Hc, Hh, Hf, Hpush, Hd, Hi.
  repeat split; try done;
    by destruct (deref (heap w) (TileForgeApp.entities this)).
Qed.

(** C10. [addEntity] appends: the collection afterwards is the collection
    before followed by the entity the constructor built, so every entity
    present before is at its index, the new entity is at index [n] and the
    length grows by one.  The call does not return that entity, though:
    [registerItems] calls [focus(0)] on the array, which now holds an item,
    the ReferenceError of [focus] passes through, and [return ent] is
    never reached. *)
Theorem C10_addEntity_appends (p : Props) (rnd : string) (L : Layout)
    (w : World) (this : TileForgeApp.t) :
  let r := TileForgeApp.addEntity p rnd L w this in
  let ent := (TileEntity.new p rnd (page w)).1 in
  let before := deref (heap w) (TileForgeApp.entities this) in
  let after := deref (heap r.1.2) (TileForgeApp.entities r.2) in
  after = before ++ [ent]
  ∧ (∀ (i : nat) e, before !! i = Some e → after !! i = Some e)
  ∧ after !! length before = Some ent
  ∧ length after = S (length before)
  ∧ r.1.1 = Js.Thrown Js.ReferenceError
  ∧ ∀ handle, r.1.1 ≠ Js.Returned handle.
Proof.
  destruct (addEntity_spec p rnd L w this) as (Hraise & _ & He & _ & Hd & _).
  cbv zeta in *. rewrite He, Hd, Hraise.
  repeat split.
  - intros i e Hi. by apply lookup_app_l_Some.
  - by rewrite lookup_app_r, Nat.sub_diag.
  - rewrite length_app. simpl. lia.
  - discriminate.
Qed.

(** The first [addEntity] of an application: the tile is in the collection
    and the call has raised. *)
Lemma C10_addEntity_appends_witness :
  map TileEntity.id
    (deref (heap (TileForgeApp.addEntity (tileProps "a") "r1" scenarioLayout
                    (world boot) (app boot)).1.2)
       (TileForgeApp.entities
          (TileForgeApp.addEntity (tileProps "a") "r1" scenarioLayout
             (world boot) (app boot)).2))
  = ["a"]
  ∧ (TileForgeApp.addEntity (tileProps "a") "r1" scenarioLayout
       (world boot) (app boot)).1.1
    = Js.Thrown Js.ReferenceError.
Proof.
  pose proof (C10_addEntity_appends (tileProps "a") "r1" scenarioLayout
                (world boot) (app boot)) as H.
  cbv zeta in H. destruct H as (Hafter & _ & _ & _ & Hraise & _).
  split; [|exact Hraise].
  rewrite Hafter. vm_compute. reflexivity.
Defined.

Lemma step_addEntity L p rnd s :
  step L (AddEntity p rnd) s
  = {| world := (TileForgeApp.addEntity p rnd L (world s) (app s)).1.2;
       app := (TileForgeApp.addEntity p rnd L (world s) (app s)).2 |}.
Proof.
  unfold step. by destruct (TileForgeApp.addEntity _ _ _ _ _) as [[ent w] a].
Qed.

Lemma collection_addEntity L p rnd s :
  collection (step L (AddEntity p rnd) s)
  = collection s ++ [(TileEntity.new p rnd (page (world s))).1].
Proof.
  rewrite step_addEntity. unfold collection. simpl.
  destruct (addEntity_spec p rnd L (world s) (app s)) as (_ & _ & -> & _ & -> & _).
  done.
Qed.

(** C7 (as the code has it).  [addEntity] makes no identity check: when the
    id of the new entity (the one given, or the generated one when none is
    given) is the id [X] of an entity already in the collection, the state
    the call leaves has the new entity appended with id [X], so the
    collection then lists [X] once more and its ids are no longer
    distinct. *)
Theorem C7_duplicate_id_is_appended (L : Layout) (s : Sys) (p : Props) (rnd X : string) :
  Js.or_else (p_id p) rnd = X →
  X ∈ map TileEntity.id (collection s) →
  let s' := step L (AddEntity p rnd) s in
  map TileEntity.id (collection s') = map TileEntity.id (collection s) ++ [X]
  ∧ length (collection s') = S (length (collection s))
  ∧ ¬ NoDup (map TileEntity.id (collection s')).
Proof.
  intros HidX Hin s'. subst s'.
  rewrite collection_addEntity.
  destruct (addEntity_spec p rnd L (world s) (app s)) as (_ & Hnew & _).
  cbv zeta in Hnew.
  rewrite map_app, length_app.
  cbn [map length]. rewrite Hnew, HidX.
  split; [done|]. split; [lia|].
  intros Hnd. apply NoDup_app in Hnd as (_ & Hdisj & _).
  apply (Hdisj X Hin). by apply list_elem_of_singleton.
Qed.

(** A second [a] after [a], [b], [c]. *)
Lemma C7_duplicate_id_is_appended_witness :
  Js.or_else (p_id (tileProps "a")) "r9" = "a"
  ∧ "a" ∈ map TileEntity.id (collection threeTiles)
  ∧ map TileEntity.id
      (collection (step scenarioLayout (AddEntity (tileProps "a") "r9") threeTiles))
    = ["a"; "b"; "c"; "a"].
Proof.
  assert (Hin : "a" ∈ map TileEntity.id (collection threeTiles))
    by (vm_compute; apply list_elem_of_here).
  split; [reflexivity|]. split; [exact Hin|].
  rewrite (proj1 (C7_duplicate_id_is_appended scenarioLayout threeTiles
                    (tileProps "a") "r9" "a" eq_refl Hin)).
  vm_compute. reflexivity.
Defined.

(** C7, the claim as written, fails: a second entity with the id of a
    present one is accepted, and the collection holds the id twice. *)
Lemma C7_counterexample :
  let s := run [(scenarioLayout, AddEntity (tileProps "a") "r1");
                (scenarioLayout, AddEntity (tileProps "a") "r2")] boot in
  map TileEntity.id (collection s) = ["a"; "a"]
  ∧ length (collection s) = 2%nat
  ∧ ¬ NoDup (map TileEntity.id (collection s)).
Proof.
  intros s.
  assert (Hids : map TileEntity.id (collection s) = ["a"; "a"])
    by (vm_compute; reflexivity).
  split; [exact Hids|]. split; [vm_compute; reflexivity|].
  rewrite Hids. intros Hnd. apply NoDup_cons in Hnd as [Hnotin _].
  apply Hnotin, list_elem_of_here.
Qed.

(** ** Clearing *)

Lemma registerItems_empty arr L w this :
  deref (heap w) arr = [] →
  InputSystem.registerItems arr L w this
  = (w, InputSystem.set_focusedIndex (-1) (InputSystem.set_items arr this)).
Proof.
  intros Hempty. unfold InputSystem.registerItems.
  rewrite (calcMetrics_empty L w (InputSystem.set_items arr this)) by done.
  simpl. by rewrite Hempty.
Qed.

(** Two arrays allocated in a row are distinct and both hold what they were
    given. *)
Lemma alloc_twice xs ys w :
  let w1 := (alloc xs w).2 in
  deref (heap (alloc ys w1).2) (alloc xs w).1 = xs
  ∧ deref (heap (alloc ys w1).2) (alloc ys w1).1 = ys.
Proof.
  intros w1. split; [|apply alloc_deref_new].
  rewrite alloc_deref_old; [apply alloc_deref_new|].
  unfold w1, alloc. simpl. rewrite lookup_insert_eq. by eexists.
Qed.

Lemma clear_spec L w this :
  let st := TileForgeApp.clear L w this in
  deref (heap st.1) (TileForgeApp.entities st.2) = []
  ∧ deref (heap st.1) (InputSystem.items (TileForgeApp.input st.2)) = []
  ∧ InputSystem.focusedIndex (TileForgeApp.input st.2) = -1
  ∧ Page.children (page st.1) = []
  ∧ destroyed st.1 = destroyed w.
Proof.
  unfold TileForgeApp.clear.
  set (w1 := with_page (Page.clearGrid (page w)) w).
  destruct (alloc_twice [] [] w1) as [Hl Harg].
  rewrite (surjective_pairing (alloc [] w1)).
  rewrite (surjective_pairing (alloc [] (alloc [] w1).2)).
  rewrite registerItems_empty by exact Harg.
  cbn [fst snd TileForgeApp.entities TileForgeApp.input InputSystem.items
       InputSystem.set_focusedIndex InputSystem.set_items InputSystem.focusedIndex].
  by rewrite Hl, Harg.
Qed.

Lemma destroy_all_destroyed xs w :
  destroyed (foldl (λ w ent, destroy ent w) w xs) = destroyed w ++ xs.
Proof.
  revert w. induction xs as [|x xs IH]; intros w; simpl.
  - by rewrite app_nil_r.
  - rewrite IH. simpl. by rewrite <- app_assoc.
Qed.

(** The first definition of [clear] runs [destroy] on every entity of the
    collection, in order. *)
Lemma clear_first_destroyed L w this :
  destroyed (TileForgeApp.clear_first L w this).1
  = destroyed w ++ deref (heap w) (TileForgeApp.entities this).
Proof.
  unfold TileForgeApp.clear_first.
  set (w0 := foldl _ w _).
  set (w1 := with_page (Page.clearGrid (page w0)) w0).
  destruct (alloc_twice [] [] w1) as [_ Harg].
  rewrite (surjective_pairing (alloc [] w1)).
  rewrite (surjective_pairing (alloc [] (alloc [] w1).2)).
  rewrite registerItems_empty by exact Harg.
  cbn [fst snd]. rewrite !alloc_destroyed. subst w1 w0. simpl.
  apply destroy_all_destroyed.
Qed.

(** C8, at one entity: the [clear] a call reaches (the later of the two
    definitions) empties the grid and the collection and leaves the
    navigator Empty, and runs [destroy] on no entity; the earlier definition
    runs it on the entity. *)
Theorem C8_clear_skips_destroy :
  let s := run [(scenarioLayout, AddEntity (tileProps "a") "r1")] boot in
  let s' := step scenarioLayout Clear s in
  map TileEntity.id (collection s) = ["a"]
  ∧ collection s' = []
  ∧ navItems s' = []
  ∧ focusedIndex s' = -1
  ∧ Page.children (page (world s')) = []
  ∧ destroyed (world s') = []
  ∧ destroyed (TileForgeApp.clear_first scenarioLayout (world s) (app s)).1
    = collection s.
Proof.
  intros s s'. repeat split; vm_compute; reflexivity.
Qed.

(** ** The invariant *)

Lemma clampIndex_valid index (n : nat) :
  focusValid (clampIndex index (Z.of_nat n)) n.
Proof.
  destruct n as [|n].
  - apply clampIndex_empty.
  - rewrite clampIndex_nonempty by lia. unfold focusValid, clamp. lia.
Qed.

Lemma focus_valid index w this :
  focusValid (InputSystem.focusedIndex (InputSystem.focus index w this).2)
    (length (deref (heap w) (InputSystem.items this))).
Proof. rewrite focus_nav. apply clampIndex_valid. Qed.

Lemma handleKey_spec key L w this :
  let st := InputSystem.handleKey key L w this in
  let n := length (deref (heap w) (InputSystem.items this)) in
  heap st.1 = heap w
  ∧ destroyed st.1 = destroyed w
  ∧ InputSystem.items st.2 = InputSystem.items this
  ∧ (focusValid (InputSystem.focusedIndex this) n →
     focusValid (InputSystem.focusedIndex st.2) n).
Proof.
  intros st n. subst st. unfold InputSystem.handleKey.
  destruct (InputSystem.active this); cbn [negb]; [|done].
  destruct (calcMetrics_fields L w this) as (Hf & Hi & _).
  assert (Hfocus : ∀ index,
    let st := InputSystem.focus index w (InputSystem.calcMetrics L w this) in
    heap st.1 = heap w ∧ destroyed st.1 = destroyed w
    ∧ InputSystem.items st.2 = InputSystem.items this
    ∧ (focusValid (InputSystem.focusedIndex this) n →
       focusValid (InputSystem.focusedIndex st.2) n)).
  { intros index st. subst st.
    pose proof (focus_valid index w (InputSystem.calcMetrics L w this)) as Hv.
    rewrite Hi in Hv.
    rewrite focus_heap, focus_destroyed. repeat split; [|done].
    rewrite focus_nav. simpl. exact Hi. }
  repeat (destruct (String.eqb key _); [apply Hfocus|]).
  destruct (_ || _); [destruct (Js.get _ _)|]; cbn [fst snd]; by rewrite Hf, Hi.
Qed.

Lemma step_invariant L ev s : invariant s → invariant (step L ev s).
Proof.
  intros [Hvalid Hsync]. unfold invariant, focusedIndex, navItems, collection in *.
  destruct ev as [p rnd| | |key|].
  - rewrite step_addEntity. cbn [world app].
    destruct (addEntity_spec p rnd L (world s) (app s))
      as (_ & _ & -> & -> & -> & -> & _).
    split; [|done]. rewrite length_app, Nat.add_comm. simpl. lia.
  - unfold step.
    destruct (clear_spec L (world s) (app s)) as (He & Hi & Hf & _).
    destruct (TileForgeApp.clear L (world s) (app s)) as [w a].
    cbn [world app fst snd] in *. by rewrite He, Hi, Hf.
  - unfold step.
    destruct (registerItems_spec (TileForgeApp.entities (app s)) L (world s)
                (TileForgeApp.input (app s))) as (Hi & Hh & _ & _ & Hf).
    destruct (InputSystem.registerItems _ L (world s) _) as [w inp].
    cbn [world app fst snd with_input TileForgeApp.input TileForgeApp.entities] in *.
    rewrite Hi, Hh, Hf. split; [|done].
    by destruct (deref (heap (world s)) (TileForgeApp.entities (app s))).
  - unfold step.
    destruct (handleKey_spec key L (world s) (TileForgeApp.input (app s)))
      as (Hh & _ & Hi & Hv).
    destruct (InputSystem.handleKey key L (world s) _) as [w inp].
    cbn [world app fst snd with_input TileForgeApp.input TileForgeApp.entities] in *.
    rewrite Hh, Hi. split; [|done].
    rewrite <- Hsync. apply Hv. by rewrite Hsync.
  - unfold step.
    cbn [world app with_input TileForgeApp.input TileForgeApp.entities].
    destruct (calcMetrics_fields L (world s) (TileForgeApp.input (app s)))
      as (-> & -> & _).
    done.
Qed.

Lemma boot_invariant : invariant boot.
Proof. split; vm_compute; reflexivity. Qed.

Lemma run_invariant evs s : invariant s → invariant (run evs s).
Proof.
  revert s. induction evs as [|[L ev] evs IH]; intros s Hs; [done|].
  apply IH. by apply step_invariant.
Qed.

(** C3. In every state the application reaches from its construction by
    [addEntity], [clear], a registration, key presses and resizes, under any
    layouts, the focused index is [-1] exactly when the collection is empty
    and otherwise a valid index of the collection, and the array the
    navigator reads has the collection's content. *)
Theorem C3_focus_never_stale (evs : list (Layout * event)) :
  let s := run evs boot in
  (focusedIndex s = -1 ↔ collection s = [])
  ∧ (collection s ≠ [] → 0 ≤ focusedIndex s < Z.of_nat (length (collection s)))
  ∧ navItems s = collection s
  ∧ invariant s.
Proof.
  intros s.
  assert (Hinv : invariant s) by apply run_invariant, boot_invariant.
  destruct Hinv as [Hvalid Hsync].
  split; [|split; [|split; [exact Hsync|by split]]].
  - unfold focusValid in Hvalid.
    destruct (collection s) as [|e xs]; simpl in Hvalid; split; intros; try done; lia.
  - intros Hne. unfold focusValid in Hvalid.
    destruct (collection s) as [|e xs]; [done|exact Hvalid].
Qed.

(** Two tiles, a move, a clear and one more key press: Empty. *)
Lemma C3_focus_never_stale_witness :
  let s := run [(scenarioLayout, AddEntity (tileProps "a") "r1");
                (scenarioLayout, AddEntity (tileProps "b") "r2");
                (scenarioLayout, KeyDown "ArrowDown");
                (scenarioLayout, Clear);
                (scenarioLayout, KeyDown "ArrowLeft")] boot in
  collection s = [] ∧ focusedIndex s = -1.
Proof.
  intros s.
  assert (Hc : collection s = []) by (vm_compute; reflexivity).
  split; [exact Hc|].
  pose proof (C3_focus_never_stale
                [(scenarioLayout, AddEntity (tileProps "a") "r1");
                 (scenarioLayout, AddEntity (tileProps "b") "r2");
                 (scenarioLayout, KeyDown "ArrowDown");
                 (scenarioLayout, Clear);
                 (scenarioLayout, KeyDown "ArrowLeft")]) as H.
  cbv zeta in H. destruct H as ([_ H] & _).
  exact (H Hc).
Defined.

(** ** What a focus change passes on *)

Lemma calcMetrics_set_focusedIndex prev L w this :
  InputSystem.calcMetrics L w (InputSystem.set_focusedIndex prev this)
  = InputSystem.set_focusedIndex prev (InputSystem.calcMetrics L w this).
Proof.
  unfold InputSystem.calcMetrics. cbn [InputSystem.items InputSystem.set_focusedIndex].
  by destruct (deref (heap w) (InputSystem.items this)).
Qed.

(** C4 (as the code has it).  The code has no focus-changed event and no
    [onFocusChange]: a focus change is a store to [focusedIndex].  Every
    call of [focus] stores the clamped new index, also when it equals the
    index stored before, and a [registerItems] of a non-empty array stores
    [0].  The index focused before is overwritten and handed to nothing:
    the state a call of [focus] or of [registerItems] leaves, and the way
    the call ends, are the same whatever index was focused before. *)
Theorem C4_focus_overwrites_previous (index prev : Z) (arr : loc) (L : Layout)
    (w : World) (this : InputSystem.t) :
  let n := Z.of_nat (length (deref (heap w) (InputSystem.items this))) in
  let was := InputSystem.set_focusedIndex prev this in
  InputSystem.focusedIndex (InputSystem.focus index w this).2 = clampIndex index n
  ∧ InputSystem.focusedIndex (InputSystem.focus (clampIndex index n) w this).2
    = clampIndex index n
  ∧ (deref (heap w) arr ≠ [] →
     InputSystem.focusedIndex (InputSystem.registerItems arr L w this).2 = 0)
  ∧ InputSystem.focus index w was = InputSystem.focus index w this
  ∧ InputSystem.focus_completion index w was
    = InputSystem.focus_completion index w this
  ∧ InputSystem.registerItems arr L w was = InputSystem.registerItems arr L w this
  ∧ InputSystem.registerItems_completion arr L w was
    = InputSystem.registerItems_completion arr L w this.
Proof.
  intros n was. subst was.
  split; [by rewrite focus_nav|].
  split.
  { rewrite focus_nav. cbn [InputSystem.focusedIndex InputSystem.set_focusedIndex].
    fold n. unfold clampIndex.
    destruct (Z.ltb_spec index 0);
      repeat match goal with
             | |- context [?a <? ?b] => destruct (Z.ltb_spec a b)
             | |- context [?a >=? ?b] => destruct (Z.geb_spec a b)
             end; lia. }
  split.
  { intros Hne.
    destruct (registerItems_spec arr L w this) as (_ & _ & _ & _ & ->).
    by destruct (deref (heap w) arr). }
  split; [reflexivity|]. split; [reflexivity|].
  split.
  - unfold InputSystem.registerItems.
    change (InputSystem.set_items arr (InputSystem.set_focusedIndex prev this))
      with (InputSystem.set_focusedIndex prev (InputSystem.set_items arr this)).
    rewrite calcMetrics_set_focusedIndex.
    reflexivity.
  - by rewrite !registerItems_completion_spec.
Qed.

(** C4, the claim as written, fails: over three tiles a focus of index 1
    from index 0 and from index 2 leaves the same state and ends the same
    way; nothing the call produces tells the previous index. *)
Lemma C4_counterexample :
  let sA := threeTiles in
  let sB := run [(scenarioLayout, KeyDown "ArrowRight");
                 (scenarioLayout, KeyDown "ArrowRight")] threeTiles in
  let goA := InputSystem.focus 1 (world sA) (TileForgeApp.input (app sA)) in
  let goB := InputSystem.focus 1 (world sB) (TileForgeApp.input (app sB)) in
  focusedIndex sA = 0 ∧ focusedIndex sB = 2
  ∧ world sA = world sB
  ∧ goA = goB
  ∧ InputSystem.focusedIndex goA.2 = 1
  ∧ InputSystem.focus_completion 1 (world sA) (TileForgeApp.input (app sA))
    = InputSystem.focus_completion 1 (world sB) (TileForgeApp.input (app sB)).
Proof.
  intros sA sB goA goB.
  repeat (split; [vm_compute; reflexivity|]).
  vm_compute; reflexivity.
Qed.

(** * Further properties of the navigator and the lifecycle *)

(** ** What the navigator does to the world *)

(** [registerItems] leaves the world as it was. *)
Lemma registerItems_world arr L w this :
  (InputSystem.registerItems arr L w this).1 = w.
Proof.
  unfold InputSystem.registerItems.
  by destruct (0 <? _).
Qed.

Lemma registerItems_cols arr L w this :
  InputSystem.cols (InputSystem.registerItems arr L w this).2
  = InputSystem.cols (InputSystem.calcMetrics L w (InputSystem.set_items arr this)).
Proof.
  unfold InputSystem.registerItems.
  destruct (0 <? _); [|done].
  by rewrite focus_nav.
Qed.

(** The column count computed by [calcMetrics] is at least 1 for every pair
    of measurements and every gap. *)
Lemma columns_positive gap gridW itemW : 1 ≤ InputSystem.columns gap gridW itemW.
Proof.
  unfold InputSystem.columns.
  destruct (negb _ || _); [lia|].
  destruct (Js.floor_div _ _) as [z| | | |]; simpl; try lia.
  destruct (Z.ltb_spec z 1); lia.
Qed.

Lemma calcMetrics_cols_positive L w this :
  1 ≤ InputSystem.cols this → 1 ≤ InputSystem.cols (InputSystem.calcMetrics L w this).
Proof.
  intros Hc. unfold InputSystem.calcMetrics.
  destruct (deref _ _); [done|]. simpl. apply columns_positive.
Qed.

(** The four shapes a call of [handleKey] can take. *)
Lemma handleKey_cases key L w this :
  let this1 := InputSystem.calcMetrics L w this in
  let result := InputSystem.handleKey key L w this in
  result = (w, this)
  ∨ (∃ index, result = InputSystem.focus index w this1)
  ∨ (∃ e, Js.get (deref (heap w) (InputSystem.items this1))
            (InputSystem.focusedIndex this1) = Some e
          ∧ result = (with_page (Page.click (TileEntity.element e) (page w)) w, this1))
  ∨ result = (w, this1).
Proof.
  intros this1 result. subst result. unfold InputSystem.handleKey. fold this1.
  destruct (InputSystem.active this); cbn [negb]; [|by left].
  repeat (destruct (String.eqb key _); [right; left; by eexists|]).
  destruct (_ || _); [|by repeat right].
  destruct (Js.get _ _) as [e|] eqn:Hget; [|by repeat right].
  right; right; left. by exists e.
Qed.

(** A key press changes nothing of the page but the click log, which it
    can only extend. *)
Lemma handleKey_frame key L w this :
  let st := InputSystem.handleKey key L w this in
  InputSystem.active st.2 = InputSystem.active this
  ∧ Page.children (page st.1) = Page.children (page w)
  ∧ Page.created (page st.1) = Page.created (page w)
  ∧ Page.focused (page st.1) = Page.focused (page w)
  ∧ Page.scrolled (page st.1) = Page.scrolled (page w)
  ∧ Page.clicked (page w) `prefix_of` Page.clicked (page st.1)
  ∧ (1 ≤ InputSystem.cols this → 1 ≤ InputSystem.cols st.2).
Proof.
  intros st. subst st.
  destruct (calcMetrics_fields L w this) as (Hf & Hi & Ha).
  pose proof (calcMetrics_cols_positive L w this) as Hc.
  destruct (handleKey_cases key L w this) as [->|[[index ->]|[(e & Hget & ->)| ->]]];
    cbn [fst snd].
  - by repeat split.
  - rewrite focus_nav, focus_world_same. cbn [InputSystem.active InputSystem.cols
      InputSystem.set_focusedIndex].
    by repeat split.
  - repeat split; try done. by apply prefix_app_r.
  - by repeat split.
Qed.

(** ** The middle of [addEntity] *)

Lemma attached_spec p rnd w this :
  let ent := (TileEntity.new p rnd (page w)).1 in
  let w1 := attached p rnd w this in
  TileEntity.element ent = Page.created (page w)
  ∧ heap w1 = <[TileForgeApp.entities this :=
                  deref (heap w) (TileForgeApp.entities this) ++ [ent]]> (heap w)
  ∧ Page.children (page w1) = Page.children (page w) ++ [Page.created (page w)]
  ∧ Page.created (page w1) = S (Page.created (page w))
  ∧ Page.focused (page w1) = Page.focused (page w)
  ∧ Page.scrolled (page w1) = Page.scrolled (page w)
  ∧ Page.clicked (page w1) = Page.clicked (page w)
  ∧ destroyed w1 = destroyed w.
Proof. by repeat split. Qed.

Lemma addEntity_world p rnd L w this :
  (TileForgeApp.addEntity p rnd L w this).1.2 = attached p rnd w this
  ∧ TileForgeApp.input (TileForgeApp.addEntity p rnd L w this).2
    = (InputSystem.registerItems (TileForgeApp.entities this) L
         (attached p rnd w this) (TileForgeApp.input this)).2.
Proof.
  pose proof (registerItems_world (TileForgeApp.entities this) L
                (attached p rnd w this) (TileForgeApp.input this)) as Hw.
  revert Hw.
  unfold TileForgeApp.addEntity, attached, TileEntity.new. simpl.
  destruct (InputSystem.registerItems _ _ _ _) as [w' inp].
  cbn [fst snd TileForgeApp.input]. by intros ->.
Qed.

Lemma attached_deref p rnd w this :
  deref (heap (attached p rnd w this)) (TileForgeApp.entities this)
  = deref (heap w) (TileForgeApp.entities this) ++ [(TileEntity.new p rnd (page w)).1].
Proof.
  destruct (attached_spec p rnd w this) as (_ & -> & _).
  unfold deref at 1. by rewrite lookup_insert_eq.
Qed.

(** [focus(0)] on a non-empty array focuses index 0. *)
Lemma focus_zero w this :
  deref (heap w) (InputSystem.items this) ≠ [] →
  InputSystem.focusedIndex (InputSystem.focus 0 w this).2 = 0.
Proof.
  intros Hne. rewrite focus_nav. simpl.
  destruct (deref (heap w) (InputSystem.items this)); [done|].
  rewrite clampIndex_nonempty by (simpl; lia). unfold clamp. simpl length. lia.
Qed.

Lemma alloc_twice_allocated xs ys w :
  is_Some (heap (alloc ys (alloc xs w).2).2 !! (alloc xs w).1).
Proof.
  unfold alloc. simpl. rewrite lookup_insert. case_decide; [by eexists|].
  rewrite lookup_insert_eq. by eexists.
Qed.

Lemma clear_world L w this :
  let w1 := with_page (Page.clearGrid (page w)) w in
  TileForgeApp.clear L w this
  = ((alloc [] (alloc [] w1).2).2,
     TileForgeApp.mk (alloc [] w1).1
       (InputSystem.set_focusedIndex (-1)
          (InputSystem.set_items (alloc [] (alloc [] w1).2).1 (TileForgeApp.input this)))).
Proof.
  intros w1. unfold TileForgeApp.clear. fold w1.
  destruct (alloc_twice [] [] w1) as [_ Harg].
  rewrite (surjective_pairing (alloc [] w1)).
  rewrite (surjective_pairing (alloc [] (alloc [] w1).2)).
  by rewrite registerItems_empty by exact Harg.
Qed.

(** ** Reachable states are consistent *)

Lemma boot_consistent : consistent boot.
Proof.
  split; [apply boot_invariant|].
  split; [vm_compute; discriminate|].
  split; [reflexivity|]. split; [reflexivity|].
  split; [constructor|].
  split; [intros n Hn; vm_compute in Hn; by apply elem_of_nil in Hn|].
  split; [vm_compute; by eexists|].
  split; reflexivity.
Qed.

Lemma step_consistent L ev s : consistent s → consistent (step L ev s).
Proof.
  intros (Hinv & Hcols & Hact & Hch & Hnd & Hlt & Halloc & Hfoc & Hscr).
  split; [by apply step_invariant|].
  unfold cols, focusedIndex, collection in *.
  destruct ev as [p rnd| | |key|].
  - rewrite step_addEntity. cbn [world app].
    destruct (addEntity_world p rnd L (world s) (app s)) as [Hw Hin].
    destruct (addEntity_spec p rnd L (world s) (app s))
      as (_ & _ & He & _ & Hd & Hf & _).
    cbv zeta in Hd, Hf. rewrite He, Hd, Hin, Hw.
    set (w1 := attached p rnd (world s) (app s)).
    destruct (attached_spec p rnd (world s) (app s))
      as (Hel & Hh1 & Hch1 & Hcr1 & Hfo1 & Hsc1 & _).
    fold w1 in Hh1, Hch1, Hcr1, Hfo1, Hsc1. cbv zeta in Hel.
    destruct (registerItems_spec (TileForgeApp.entities (app s)) L w1
                (TileForgeApp.input (app s))) as (_ & _ & _ & Ha' & _).
    rewrite Hch1, Hcr1, Hh1, Ha', Hfo1, Hsc1.
    split; [rewrite registerItems_cols; by apply calcMetrics_cols_positive|].
    split; [done|].
    split; [by rewrite map_app, <- Hch, <- Hel|].
    split.
    { apply NoDup_app. split; [done|]. split; [|apply NoDup_singleton].
      intros n Hn Hn'. apply list_elem_of_singleton in Hn'. subst n.
      specialize (Hlt _ Hn). lia. }
    split.
    { intros n Hn. apply elem_of_app in Hn as [Hn|Hn].
      - specialize (Hlt _ Hn). lia.
      - apply list_elem_of_singleton in Hn. subst n. lia. }
    split; [rewrite lookup_insert_eq; by eexists|].
    by split.
  - unfold step. rewrite clear_world. cbn [world app fst snd
      TileForgeApp.input TileForgeApp.entities InputSystem.cols
      InputSystem.active InputSystem.focusedIndex InputSystem.set_focusedIndex
      InputSystem.set_items].
    pose proof (alloc_twice [] [] (with_page (Page.clearGrid (page (world s))) (world s)))
      as [Hl _]. cbv zeta in Hl. rewrite Hl.
    split; [done|]. split; [done|]. split; [done|].
    split; [constructor|].
    split; [intros n Hn; by apply elem_of_nil in Hn|].
    split; [apply alloc_twice_allocated|].
    by split.
  - unfold step.
    rewrite (surjective_pairing (InputSystem.registerItems _ _ _ _)).
    cbn [world app with_input TileForgeApp.input TileForgeApp.entities].
    destruct (registerItems_spec (TileForgeApp.entities (app s)) L (world s)
                (TileForgeApp.input (app s))) as (_ & Hh & _ & Ha & Hf).
    rewrite registerItems_cols, Ha, Hh.
    rewrite registerItems_world.
    split; [by apply calcMetrics_cols_positive|].
    by repeat (split; [done|]).
  - unfold step.
    rewrite (surjective_pairing (InputSystem.handleKey _ _ _ _)).
    cbn [world app with_input TileForgeApp.input TileForgeApp.entities].
    destruct (handleKey_spec key L (world s) (TileForgeApp.input (app s)))
      as (Hh & _ & Hi & _).
    destruct (handleKey_frame key L (world s) (TileForgeApp.input (app s)))
      as (Ha & Hch' & Hcr' & Hfo' & Hsc' & _ & Hc').
    rewrite Ha, Hch', Hcr', Hh, Hfo', Hsc'.
    split; [by apply Hc'|].
    by repeat (split; [done|]).
  - unfold step.
    cbn [world app with_input TileForgeApp.input TileForgeApp.entities].
    destruct (calcMetrics_fields L (world s) (TileForgeApp.input (app s)))
      as (Hf & _ & Ha).
    rewrite Ha.
    split; [by apply calcMetrics_cols_positive|].
    by repeat (split; [done|]).
Qed.

Lemma run_consistent evs s : consistent s → consistent (run evs s).
Proof.
  revert s. induction evs as [|[L ev] evs IH]; intros s Hs; [done|].
  apply IH. by apply step_consistent.
Qed.

Lemma reachable_consistent evs : consistent (run evs boot).
Proof. apply run_consistent, boot_consistent. Qed.

(** X1. The column count is at least 1 in every reachable state, and
    [calcMetrics] computes a count of at least 1 from any measurements. *)
Theorem X1_cols_at_least_one (evs : list (Layout * event)) :
  1 ≤ cols (run evs boot)
  ∧ ∀ L w this, 1 ≤ InputSystem.cols this →
      1 ≤ InputSystem.cols (InputSystem.calcMetrics L w this).
Proof.
  split.
  - by destruct (reachable_consistent evs) as (_ & Hc & _).
  - intros L w this. apply calcMetrics_cols_positive.
Qed.

(** X2. In every reachable state the children of the grid are the elements
    of the collection's entities, in the order of the collection, and no two
    entities share an element. *)
Theorem X2_grid_mirrors_collection (evs : list (Layout * event)) :
  let s := run evs boot in
  Page.children (page (world s)) = map TileEntity.element (collection s)
  ∧ NoDup (map TileEntity.element (collection s)).
Proof.
  destruct (reachable_consistent evs) as (_ & _ & _ & Hch & Hnd & _).
  simpl. by rewrite <- Hch.
Qed.




(** ** Key presses in reachable states *)

Lemma press_arrow key d L w this :
  InputSystem.active this = true →
  arrowDelta key (InputSystem.cols (InputSystem.calcMetrics L w this)) = Some d →
  let st := press key L (w, this) in
  heap st.1 = heap w
  ∧ InputSystem.items st.2 = InputSystem.items this
  ∧ InputSystem.active st.2 = true
  ∧ InputSystem.cols st.2 = InputSystem.cols (InputSystem.calcMetrics L w this)
  ∧ InputSystem.focusedIndex st.2
    = clampIndex (InputSystem.focusedIndex this + d)
        (Z.of_nat (length (deref (heap w) (InputSystem.items this)))).
Proof.
  intros Hact Hd. unfold press. cbn [fst snd].
  rewrite (handleKey_arrow key d) by done.
  rewrite focus_heap, focus_nav. cbn [InputSystem.items InputSystem.active
    InputSystem.cols InputSystem.focusedIndex InputSystem.set_focusedIndex].
  by destruct (calcMetrics_fields L w this) as (_ & -> & ->).
Qed.

(** On a non-empty array the recomputed column count depends on the layout,
    the heap and the registered array only. *)
Lemma calcMetrics_cols_indep L w w' this this' :
  heap w' = heap w →
  InputSystem.items this' = InputSystem.items this →
  deref (heap w) (InputSystem.items this) ≠ [] →
  InputSystem.cols (InputSystem.calcMetrics L w' this')
  = InputSystem.cols (InputSystem.calcMetrics L w this).
Proof.
  intros Hh Hi Hne. unfold InputSystem.calcMetrics. rewrite Hh, Hi.
  by destruct (deref (heap w) (InputSystem.items this)).
Qed.

(** X6. Enter and Space are one key to [handleKey].  In a reachable state
    a press of either clicks the element of the focused entity, once, when
    the collection is not empty, and clicks nothing when it is; the focused
    index, the collection, the marked elements and the scroll log stay as
    they are. *)
Theorem X6_activation_clicks_focused (evs : list (Layout * event)) (L : Layout) :
  let s := run evs boot in
  let s' := step L (KeyDown "Enter") s in
  (∀ w this, InputSystem.handleKey " " L w this = InputSystem.handleKey "Enter" L w this)
  ∧ focusedIndex s' = focusedIndex s
  ∧ collection s' = collection s
  ∧ Page.focused (page (world s')) = Page.focused (page (world s))
  ∧ Page.scrolled (page (world s')) = Page.scrolled (page (world s))
  ∧ Page.clicked (page (world s'))
    = Page.clicked (page (world s))
      ++ match Js.get (collection s) (focusedIndex s) with
         | Some e => [TileEntity.element e]
         | None => []
         end
  ∧ (collection s ≠ [] → is_Some (Js.get (collection s) (focusedIndex s))).
Proof.
  intros s s'. split; [done|].
  destruct (reachable_consistent evs) as ([Hvalid Hsync] & _ & Hact & _).
  fold s in Hvalid, Hsync, Hact. unfold navItems in Hsync.
  unfold s', step, focusedIndex, collection in *.
  assert (Hsome : deref (heap (world s)) (TileForgeApp.entities (app s)) ≠ [] →
            is_Some (Js.get (deref (heap (world s)) (TileForgeApp.entities (app s)))
                       (InputSystem.focusedIndex (TileForgeApp.input (app s))))).
  { intros Hne. unfold focusValid in Hvalid.
    destruct (deref (heap (world s)) (TileForgeApp.entities (app s))) as [|e0 xs] eqn:Hxs;
      [done|].
    simpl in Hvalid. unfold Js.get.
    destruct (Z.ltb_spec (InputSystem.focusedIndex (TileForgeApp.input (app s))) 0);
      [lia|].
    apply lookup_lt_is_Some_2. simpl length. lia. }
  rewrite (surjective_pairing (InputSystem.handleKey _ _ _ _)).
  cbn [world app with_input TileForgeApp.input TileForgeApp.entities].
  unfold InputSystem.handleKey. rewrite Hact. cbn [negb]. simpl String.eqb.
  cbn [orb].
  destruct (calcMetrics_fields L (world s) (TileForgeApp.input (app s)))
    as (Hf & Hi & _).
  rewrite Hf, Hi, Hsync.
  destruct (Js.get _ _) as [e|];
    cbn [fst snd page heap with_page Page.click Page.clicked Page.focused
         Page.scrolled];
    rewrite Hf, ?app_nil_r; repeat (split; [done|]); exact Hsome.
Qed.

(** After the down arrow over nine tiles, Enter clicks element 4. *)
Lemma X6_activation_clicks_focused_witness :
  let s := run (replicate 9 (scenarioLayout, AddEntity anonymousProps "k3j9x0q2a")
                ++ [(scenarioLayout, KeyDown "ArrowDown")]) boot in
  collection s ≠ []
  ∧ Page.clicked (page (world (step scenarioLayout (KeyDown "Enter") s))) = [4%nat].
Proof.
  intros s.
  split; [vm_compute; discriminate|].
  destruct (X6_activation_clicks_focused
              (replicate 9 (scenarioLayout, AddEntity anonymousProps "k3j9x0q2a")
               ++ [(scenarioLayout, KeyDown "ArrowDown")]) scenarioLayout)
    as (_ & _ & _ & _ & _ & Hcl & _).
  fold s in Hcl. rewrite Hcl. vm_compute. reflexivity.
Defined.

(** X7. A key press never touches the collection, the grid's children, the
    destroy log or the active flag; a key that is not an arrow, Enter or
    Space changes nothing but the column count, which is recomputed all the
    same; an inactive input system ignores every key, metrics included. *)
Theorem X7_other_keys_ignored (key : string) (L : Layout) (s : Sys) :
  let s' := step L (KeyDown key) s in
  collection s' = collection s
  ∧ navItems s' = navItems s
  ∧ Page.children (page (world s')) = Page.children (page (world s))
  ∧ destroyed (world s') = destroyed (world s)
  ∧ InputSystem.active (TileForgeApp.input (app s'))
    = InputSystem.active (TileForgeApp.input (app s))
  ∧ (handledKey key = false →
     world s' = world s ∧ focusedIndex s' = focusedIndex s
     ∧ (InputSystem.active (TileForgeApp.input (app s)) = true →
        cols s' = InputSystem.cols
                    (InputSystem.calcMetrics L (world s) (TileForgeApp.input (app s)))))
  ∧ (InputSystem.active (TileForgeApp.input (app s)) = false → s' = s).
Proof.
  intros s'. unfold s', step, collection, navItems, focusedIndex, cols.
  rewrite (surjective_pairing (InputSystem.handleKey _ _ _ _)).
  cbn [world app with_input TileForgeApp.input TileForgeApp.entities].
  destruct (handleKey_spec key L (world s) (TileForgeApp.input (app s)))
    as (Hh & Hd & Hi & _).
  destruct (handleKey_frame key L (world s) (TileForgeApp.input (app s)))
    as (Ha & Hch & _).
  rewrite Hh, Hd, Hi, Ha, Hch.
  repeat (split; [done|]). split.
  - intros Hkey. unfold handledKey in Hkey.
    repeat (apply orb_false_elim in Hkey as [Hkey ?]).
    unfold InputSystem.handleKey.
    destruct (InputSystem.active (TileForgeApp.input (app s))); cbn [negb];
      [|by cbn [fst snd]].
    repeat match goal with H : String.eqb key _ = false |- _ => rewrite H; clear H end.
    cbn [orb fst snd].
    by destruct (calcMetrics_fields L (world s) (TileForgeApp.input (app s))) as (-> & _).
  - intros Hina. unfold InputSystem.handleKey. rewrite Hina. cbn [negb fst snd].
    by destruct s as [w [ent inp]].
Qed.

(** The letter [q] on three tiles: nothing moves. *)
Lemma X7_other_keys_ignored_witness :
  handledKey "q" = false
  ∧ world (step scenarioLayout (KeyDown "q") threeTiles) = world threeTiles
  ∧ focusedIndex (step scenarioLayout (KeyDown "q") threeTiles) = focusedIndex threeTiles.
Proof.
  split; [reflexivity|].
  destruct (X7_other_keys_ignored "q" scenarioLayout threeTiles)
    as (_ & _ & _ & _ & _ & H & _).
  destruct (H eq_refl) as (Hw & Hf & _). by split.
Defined.

(** X9. From a valid navigator state, the right and down arrows never move
    the focus toward the start and the left and up arrows never move it
    toward the end, whatever the layout says. *)
Theorem X9_arrows_move_the_right_way (L : Layout) (w : World) (this : InputSystem.t) :
  focusValid (InputSystem.focusedIndex this)
    (length (deref (heap w) (InputSystem.items this))) →
  let after key := InputSystem.focusedIndex (InputSystem.handleKey key L w this).2 in
  InputSystem.focusedIndex this ≤ after "ArrowRight"
  ∧ InputSystem.focusedIndex this ≤ after "ArrowDown"
  ∧ after "ArrowLeft" ≤ InputSystem.focusedIndex this
  ∧ after "ArrowUp" ≤ InputSystem.focusedIndex this.
Proof.
  intros Hvalid after.
  destruct (InputSystem.active this) eqn:Hact.
  - assert (Hgo : ∀ key d,
              arrowDelta key (InputSystem.cols (InputSystem.calcMetrics L w this)) = Some d →
              after key = clampIndex (InputSystem.focusedIndex this + d)
                            (Z.of_nat (length (deref (heap w) (InputSystem.items this))))).
    { intros key d Hd. unfold after. rewrite (handleKey_arrow key d) by done.
      apply focus_after_metrics. }
    assert (Hc : deref (heap w) (InputSystem.items this) ≠ [] →
                 1 ≤ InputSystem.cols (InputSystem.calcMetrics L w this)).
    { intros Hne. unfold InputSystem.calcMetrics.
      destruct (deref (heap w) (InputSystem.items this)); [done|].
      apply columns_positive. }
    rewrite (Hgo "ArrowRight" 1), (Hgo "ArrowLeft" (-1)),
      (Hgo "ArrowDown" _ eq_refl), (Hgo "ArrowUp" _ eq_refl) by done.
    destruct (deref (heap w) (InputSystem.items this)) as [|e xs] eqn:Hxs.
    + simpl in Hvalid. change (Z.of_nat (length [])) with 0.
      rewrite !clampIndex_empty. lia.
    + specialize (Hc ltac:(done)). simpl in Hvalid.
      rewrite !clampIndex_nonempty by (simpl length; lia).
      unfold clamp. simpl length. lia.
  - unfold after, InputSystem.handleKey. rewrite Hact. simpl. lia.
Qed.

(** Nine tiles in four columns, focus at 0: the down arrow does not go back. *)
Lemma X9_arrows_move_the_right_way_witness :
  focusValid (InputSystem.focusedIndex (TileForgeApp.input (app nineTiles)))
    (length (deref (heap (world nineTiles))
               (InputSystem.items (TileForgeApp.input (app nineTiles)))))
  ∧ InputSystem.focusedIndex (TileForgeApp.input (app nineTiles))
    ≤ InputSystem.focusedIndex
        (InputSystem.handleKey "ArrowDown" scenarioLayout (world nineTiles)
           (TileForgeApp.input (app nineTiles))).2.
Proof.
  assert (Hv : focusValid (InputSystem.focusedIndex (TileForgeApp.input (app nineTiles)))
                 (length (deref (heap (world nineTiles))
                            (InputSystem.items (TileForgeApp.input (app nineTiles))))))
    by (vm_compute; split; [discriminate|reflexivity]).
  split; [exact Hv|].
  pose proof (X9_arrows_move_the_right_way scenarioLayout (world nineTiles)
                (TileForgeApp.input (app nineTiles)) Hv) as H.
  cbv zeta in H. by destruct H as (_ & H & _).
Defined.

(** ** Sequences of arrow keys under one layout *)

Lemma sameArray_start w this :
  InputSystem.active this = true → sameArray w this (w, this).
Proof. by repeat split. Qed.

Lemma sameArray_cols L w this st :
  deref (heap w) (InputSystem.items this) ≠ [] →
  sameArray w this st →
  InputSystem.cols (InputSystem.calcMetrics L st.1 st.2)
  = InputSystem.cols (InputSystem.calcMetrics L w this).
Proof. intros Hne (Hh & Hi & _). by apply calcMetrics_cols_indep. Qed.

Lemma press_sameArray L w this key d st :
  deref (heap w) (InputSystem.items this) ≠ [] →
  sameArray w this st →
  arrowDelta key (InputSystem.cols (InputSystem.calcMetrics L w this)) = Some d →
  sameArray w this (press key L st)
  ∧ InputSystem.focusedIndex (press key L st).2
    = clamp (InputSystem.focusedIndex st.2 + d) 0
        (Z.of_nat (length (deref (heap w) (InputSystem.items this))) - 1).
Proof.
  intros Hne Hs Hd. pose proof (sameArray_cols L w this st Hne Hs) as Hc.
  destruct Hs as (Hh & Hi & Ha). destruct st as [w' this']. cbn [fst snd] in *.
  rewrite <- Hc in Hd.
  destruct (press_arrow key d L w' this' Ha Hd) as (Hh' & Hi' & Ha' & _ & Hf').
  rewrite Hf', Hh, Hi.
  split.
  - unfold sameArray. by rewrite Hh', Hi', Ha'.
  - apply clampIndex_nonempty.
    destruct (deref (heap w) (InputSystem.items this)); [done|simpl length; lia].
Qed.

Lemma press_iter L w this key d (k : nat) :
  InputSystem.active this = true →
  deref (heap w) (InputSystem.items this) ≠ [] →
  arrowDelta key (InputSystem.cols (InputSystem.calcMetrics L w this)) = Some d →
  sameArray w this (Nat.iter k (press key L) (w, this))
  ∧ InputSystem.focusedIndex (Nat.iter k (press key L) (w, this)).2
    = Nat.iter k
        (λ i, clamp (i + d) 0
                (Z.of_nat (length (deref (heap w) (InputSystem.items this))) - 1))
        (InputSystem.focusedIndex this).
Proof.
  intros Hact Hne Hd.
  induction k as [|k [IHs IHf]]; [split; [by apply sameArray_start|done]|].
  simpl. destruct (press_sameArray L w this key d _ Hne IHs Hd) as [Hs Hf].
  split; [exact Hs|]. by rewrite Hf, IHf.
Qed.

Lemma clamp_iter_up (d i m : Z) (k : nat) :
  0 ≤ d → 0 ≤ i ≤ m →
  Nat.iter k (λ i, clamp (i + d) 0 m) i = Z.min (i + Z.of_nat k * d) m.
Proof.
  intros Hd Hi. induction k as [|k IH]; simpl; [lia|].
  rewrite IH. unfold clamp. nia.
Qed.

Lemma clamp_iter_down (d i m : Z) (k : nat) :
  0 ≤ d → 0 ≤ i ≤ m →
  Nat.iter k (λ i, clamp (i - d) 0 m) i = Z.max (i - Z.of_nat k * d) 0.
Proof.
  intros Hd Hi. induction k as [|k IH]; simpl; [lia|].
  rewrite IH. unfold clamp. nia.
Qed.

(** X8. Under one layout, from a valid index [i] of a non-empty array:
    left then right returns to [i] unless [i] is the first index, right
    then left returns unless [i] is the last, down then up returns when
    the row below exists ([i + cols] is an index), up then down returns
    when the row above exists; from the first index left then right ends
    one step to the right. *)
Theorem X8_arrow_round_trips (L : Layout) (w : World) (this : InputSystem.t) :
  InputSystem.active this = true →
  let n := Z.of_nat (length (deref (heap w) (InputSystem.items this))) in
  let i := InputSystem.focusedIndex this in
  let c := InputSystem.cols (InputSystem.calcMetrics L w this) in
  let two k1 k2 := InputSystem.focusedIndex (press k2 L (press k1 L (w, this))).2 in
  0 ≤ i < n →
  (0 < i → two "ArrowLeft" "ArrowRight" = i)
  ∧ (i < n - 1 → two "ArrowRight" "ArrowLeft" = i)
  ∧ (i + c ≤ n - 1 → two "ArrowDown" "ArrowUp" = i)
  ∧ (0 ≤ i - c → two "ArrowUp" "ArrowDown" = i)
  ∧ (i = 0 → 2 ≤ n → two "ArrowLeft" "ArrowRight" = 1).
Proof.
  intros Hact n i c two Hi.
  assert (Hne : deref (heap w) (InputSystem.items this) ≠ []).
  { subst n. destruct (deref (heap w) (InputSystem.items this)); [simpl in Hi; lia|done]. }
  assert (Hc : 1 ≤ c).
  { subst c. unfold InputSystem.calcMetrics.
    destruct (deref (heap w) (InputSystem.items this)); [done|].
    apply columns_positive. }
  assert (Htwo : ∀ k1 d1 k2 d2,
            arrowDelta k1 c = Some d1 → arrowDelta k2 c = Some d2 →
            two k1 k2 = clamp (clamp (i + d1) 0 (n - 1) + d2) 0 (n - 1)).
  { intros k1 d1 k2 d2 H1 H2. unfold two.
    destruct (press_sameArray L w this k1 d1 (w, this) Hne
                (sameArray_start w this Hact) H1) as [Hs1 Hf1].
    destruct (press_sameArray L w this k2 d2 _ Hne Hs1 H2) as [_ Hf2].
    by rewrite Hf2, Hf1. }
  rewrite (Htwo "ArrowLeft" (-1) "ArrowRight" 1),
    (Htwo "ArrowRight" 1 "ArrowLeft" (-1)),
    (Htwo "ArrowDown" c "ArrowUp" (- c)),
    (Htwo "ArrowUp" (- c) "ArrowDown" c) by done.
  unfold clamp. repeat split; lia.
Qed.

(** Three tiles, focus at 0: right then left is back at 0, left then right
    is at 1. *)
Lemma X8_arrow_round_trips_witness :
  InputSystem.active (TileForgeApp.input (app threeTiles)) = true
  ∧ InputSystem.focusedIndex
      (press "ArrowLeft" scenarioLayout
         (press "ArrowRight" scenarioLayout
            (world threeTiles, TileForgeApp.input (app threeTiles)))).2
    = InputSystem.focusedIndex (TileForgeApp.input (app threeTiles))
  ∧ InputSystem.focusedIndex
      (press "ArrowRight" scenarioLayout
         (press "ArrowLeft" scenarioLayout
            (world threeTiles, TileForgeApp.input (app threeTiles)))).2
    = 1.
Proof.
  assert (Hact : InputSystem.active (TileForgeApp.input (app threeTiles)) = true)
    by (vm_compute; reflexivity).
  split; [exact Hact|].
  pose proof (X8_arrow_round_trips scenarioLayout (world threeTiles)
                (TileForgeApp.input (app threeTiles)) Hact) as H.
  cbv zeta in H.
  destruct (H ltac:(vm_compute; split; [discriminate|reflexivity]))
    as (_ & Hrl & _ & _ & Hlr).
  split.
  - apply Hrl. vm_compute. reflexivity.
  - apply Hlr; vm_compute; [reflexivity|discriminate].
Defined.

(** X14. Under one layout, from a valid index [i] of an array of length
    [n], [k] presses of the left arrow reach [max (i - k) 0], [k] presses
    of the down arrow reach [min (i + k * cols) (n - 1)] and [k] presses of
    the up arrow reach [max (i - k * cols) 0]. *)
Theorem X14_repeated_presses (L : Layout) (w : World) (this : InputSystem.t) (k : nat) :
  InputSystem.active this = true →
  let n := Z.of_nat (length (deref (heap w) (InputSystem.items this))) in
  let i := InputSystem.focusedIndex this in
  let c := InputSystem.cols (InputSystem.calcMetrics L w this) in
  let times key := InputSystem.focusedIndex (Nat.iter k (press key L) (w, this)).2 in
  0 ≤ i < n →
  times "ArrowLeft" = Z.max (i - Z.of_nat k) 0
  ∧ times "ArrowDown" = Z.min (i + Z.of_nat k * c) (n - 1)
  ∧ times "ArrowUp" = Z.max (i - Z.of_nat k * c) 0.
Proof.
  intros Hact n i c times Hi.
  assert (Hne : deref (heap w) (InputSystem.items this) ≠ []).
  { subst n. destruct (deref (heap w) (InputSystem.items this)); [simpl in Hi; lia|done]. }
  assert (Hc : 1 ≤ c).
  { subst c. unfold InputSystem.calcMetrics.
    destruct (deref (heap w) (InputSystem.items this)); [done|].
    apply columns_positive. }
  unfold times.
  destruct (press_iter L w this "ArrowLeft" (-1) k Hact Hne eq_refl) as [_ ->].
  destruct (press_iter L w this "ArrowDown" c k Hact Hne eq_refl) as [_ ->].
  destruct (press_iter L w this "ArrowUp" (- c) k Hact Hne eq_refl) as [_ ->].
  fold n i.
  change (λ i0, clamp (i0 + -1) 0 (n - 1)) with (λ i0, clamp (i0 - 1) 0 (n - 1)).
  change (λ i0, clamp (i0 + - c) 0 (n - 1)) with (λ i0, clamp (i0 - c) 0 (n - 1)).
  rewrite !clamp_iter_down, clamp_iter_up by lia.
  repeat split; lia.
Qed.

(** Nine tiles in four columns: three down arrows stop at 8. *)
Lemma X14_repeated_presses_witness :
  InputSystem.active (TileForgeApp.input (app nineTiles)) = true
  ∧ InputSystem.focusedIndex
      (Nat.iter 3 (press "ArrowDown" scenarioLayout)
         (world nineTiles, TileForgeApp.input (app nineTiles))).2 = 8.
Proof.
  assert (Hact : InputSystem.active (TileForgeApp.input (app nineTiles)) = true)
    by (vm_compute; reflexivity).
  split; [exact Hact|].
  pose proof (X14_repeated_presses scenarioLayout (world nineTiles)
                (TileForgeApp.input (app nineTiles)) 3 Hact) as H.
  cbv zeta in H.
  destruct (H ltac:(vm_compute; split; [discriminate|reflexivity])) as (_ & -> & _).
  vm_compute. reflexivity.
Defined.

(** ** Destroying and clearing *)

Lemma filter_keeps_all (P : node → Prop) `{!∀ x, Decision (P x)} (l : list node) :
  (∀ x, x ∈ l → P x) → filter P l = l.
Proof.
  induction l as [|x l IH]; intros Hall; [done|].
  rewrite filter_cons_True by (apply Hall; apply list_elem_of_here).
  rewrite IH; [done|]. intros y Hy. apply Hall. by apply list_elem_of_further.
Qed.

Lemma filter_drops_all (P : node → Prop) `{!∀ x, Decision (P x)} (l : list node) :
  (∀ x, x ∈ l → ¬ P x) → filter P l = [].
Proof.
  induction l as [|x l IH]; intros Hall; [done|].
  rewrite filter_cons_False by (apply Hall; apply list_elem_of_here).
  apply IH. intros y Hy. apply Hall. by apply list_elem_of_further.
Qed.

Lemma destroy_all_frame xs w :
  let w' := foldl (λ w ent, destroy ent w) w xs in
  heap w' = heap w
  ∧ Page.children (page w')
    = filter (λ n, n ∉ map TileEntity.element xs) (Page.children (page w))
  ∧ Page.focused (page w') = Page.focused (page w)
  ∧ Page.scrolled (page w') = Page.scrolled (page w)
  ∧ Page.clicked (page w') = Page.clicked (page w)
  ∧ Page.created (page w') = Page.created (page w).
Proof.
  revert w. induction xs as [|x xs IH]; intros w.
  - simpl. repeat split; try done.
    symmetry. apply filter_keeps_all. intros n _. apply not_elem_of_nil.
  - simpl. destruct (IH (destroy x w)) as (Hh & Hch & Hfo & Hsc & Hcl & Hcr).
    rewrite Hh, Hch, Hfo, Hsc, Hcl, Hcr. simpl.
    repeat split; try done.
    rewrite list_filter_filter. apply list_filter_iff.
    intros n. rewrite not_elem_of_cons. tauto.
Qed.

(** X10. The two definitions of [clear] agree on everything but the calls of
    [destroy]: from any state they produce the same application state, the
    same heap and the same page; the first has run [destroy] on every
    entity of the collection, in order, and the second, the one a call
    reaches, on none. *)
Theorem X10_clear_definitions_differ_in_destroy (L : Layout) (w : World)
    (this : TileForgeApp.t) :
  let first := TileForgeApp.clear_first L w this in
  let second := TileForgeApp.clear L w this in
  first.2 = second.2
  ∧ heap first.1 = heap second.1
  ∧ page first.1 = page second.1
  ∧ destroyed first.1 = destroyed w ++ deref (heap w) (TileForgeApp.entities this)
  ∧ destroyed second.1 = destroyed w.
Proof.
  intros first second.
  assert (Hd1 : destroyed first.1
                = destroyed w ++ deref (heap w) (TileForgeApp.entities this))
    by apply clear_first_destroyed.
  assert (Hd2 : destroyed second.1 = destroyed w)
    by by destruct (clear_spec L w this) as (_ & _ & _ & _ & ?).
  split; [|split; [|split; [|by split]]].
  all: subst first second; rewrite clear_world;
    unfold TileForgeApp.clear_first;
    set (w0 := foldl _ w _);
    destruct (destroy_all_frame (deref (heap w) (TileForgeApp.entities this)) w)
      as (Hh & _ & Hfo & Hsc & Hcl & Hcr); fold w0 in Hh, Hfo, Hsc, Hcl, Hcr;
    set (w1 := with_page (Page.clearGrid (page w0)) w0);
    destruct (alloc_twice [] [] w1) as [_ Harg];
    rewrite (surjective_pairing (alloc [] w1));
    rewrite (surjective_pairing (alloc [] (alloc [] w1).2));
    rewrite registerItems_empty by exact Harg;
    cbn [fst snd]; unfold alloc; cbn [fst snd heap page with_page];
    assert (Hh1 : heap w1 = heap w) by exact Hh;
    rewrite ?Hh1; try done.
  subst w1. cbn [page with_page]. unfold Page.clearGrid.
  by rewrite Hfo, Hsc, Hcl, Hcr.
Qed.

(** X11. [destroy] takes the entity's element out of the grid and leaves the
    other children in their order; a second [destroy] of the same entity
    changes nothing in the document; and in a reachable state, destroying
    every entity of the collection leaves the grid without children. *)
Theorem X11_destroy_detaches (e : TileEntity.t) (w : World) :
  let w' := destroy e w in
  Page.children (page w')
  = filter (λ n, n ≠ TileEntity.element e) (Page.children (page w))
  ∧ Page.contains (TileEntity.element e) (page w') = false
  ∧ (∀ n, n ≠ TileEntity.element e →
       Page.contains n (page w') = Page.contains n (page w))
  ∧ page (destroy e w') = page w'
  ∧ heap w' = heap w
  ∧ ∀ evs,
      let s := run evs boot in
      Page.children (page (foldl (λ w ent, destroy ent w) (world s) (collection s))) = [].
Proof.
  intros w'. split; [done|]. split; [|split; [|split; [|split; [done|]]]].
  - unfold Page.contains. apply bool_decide_eq_false. simpl.
    rewrite list_elem_of_filter. tauto.
  - intros n Hn. unfold Page.contains. apply bool_decide_ext. simpl.
    rewrite list_elem_of_filter. tauto.
  - unfold w', destroy, Page.remove. simpl. f_equal.
    rewrite list_filter_filter. apply list_filter_iff. tauto.
  - intros evs s.
    destruct (destroy_all_frame (collection s) (world s)) as (_ & -> & _).
    destruct (reachable_consistent evs) as (_ & _ & _ & Hch & _).
    fold s in Hch. rewrite Hch.
    apply filter_drops_all. intros n Hn. tauto.
Qed.

(** X12. In a reachable state, [addEntity] sends the focus back to the first
    entity of the collection, whatever was focused: the focused index is 0
    afterwards and names the entity that was first before (the new one
    when the collection was empty), the new element is the grid's last
    child, and the column count is the one the first entity's width
    gives. *)
Theorem X12_addEntity_refocuses_first (evs : list (Layout * event)) (L : Layout)
    (p : Props) (rnd : string) :
  let s := run evs boot in
  let s' := step L (AddEntity p rnd) s in
  let new := (TileEntity.new p rnd (page (world s))).1 in
  let first := hd new (collection s) in
  focusedIndex s' = 0
  ∧ collection s' !! 0%nat = Some first
  ∧ Js.get (collection s') (focusedIndex s') = Some first
  ∧ Page.children (page (world s'))
    = Page.children (page (world s)) ++ [TileEntity.element new]
  ∧ cols s' = InputSystem.columns InputSystem.GAP (containerWidth L)
                (offsetWidth L (TileEntity.element first)).
Proof.
  intros s s' new first.
  pose proof (collection_addEntity L p rnd s) as Hcoll. fold s' new in Hcoll.
  assert (Hfirst : collection s ++ [new] = first :: tl (collection s ++ [new]))
    by (subst first; by destruct (collection s)).
  destruct (addEntity_spec p rnd L (world s) (app s))
    as (_ & _ & _ & _ & _ & Hf & _).
  cbv zeta in Hf.
  destruct (addEntity_world p rnd L (world s) (app s)) as [Hw Hin].
  set (w1 := attached p rnd (world s) (app s)) in *.
  destruct (attached_spec p rnd (world s) (app s)) as (Hel & _ & Hch1 & _).
  fold w1 in Hch1. cbv zeta in Hel. fold new in Hel.
  assert (Hxs : deref (heap w1) (TileForgeApp.entities (app s)) = collection s ++ [new])
    by (subst w1; apply attached_deref).
  assert (Hworld : world s' = w1)
    by (unfold s'; rewrite step_addEntity; exact Hw).
  assert (Hfi : focusedIndex s' = 0)
    by (unfold s', focusedIndex; rewrite step_addEntity; exact Hf).
  split; [exact Hfi|].
  split; [by rewrite Hcoll, Hfirst|].
  split; [by rewrite Hfi, Hcoll, Hfirst|].
  split; [by rewrite Hworld, Hch1, Hel|].
  unfold cols, s'. rewrite step_addEntity. cbn [app]. rewrite Hin.
  rewrite registerItems_cols.
  unfold InputSystem.calcMetrics. cbn [InputSystem.items InputSystem.set_items].
  by rewrite Hxs, Hfirst.
Qed.

(** With the focus on the third of three tiles, a fourth tile sends it back
    to the first. *)
Lemma X12_addEntity_refocuses_first_witness :
  let evs := [(scenarioLayout, AddEntity (tileProps "a") "r1");
              (scenarioLayout, AddEntity (tileProps "b") "r2");
              (scenarioLayout, AddEntity (tileProps "c") "r3");
              (scenarioLayout, KeyDown "ArrowDown")] in
  focusedIndex (run evs boot) = 2
  ∧ focusedIndex (step scenarioLayout (AddEntity (tileProps "d") "r4") (run evs boot)) = 0.
Proof.
  intros evs. split; [vm_compute; reflexivity|].
  exact (proj1 (X12_addEntity_refocuses_first evs scenarioLayout (tileProps "d") "r4")).
Defined.



(** * The modal dialog *)

(** ** Selections that cover every overlay *)

Lemma foldl_alter_lookup (f : Ui.Overlay → Ui.Overlay) (idxs : list nat)
    (l : list Ui.Overlay) (j : nat) :
  NoDup idxs →
  foldl (λ l i, alter f i l) l idxs !! j
  = if decide (j ∈ idxs) then f <$> l !! j else l !! j.
Proof.
  intros Hnd. revert l. induction Hnd as [|i idxs Hi Hnd IH]; intros l; cbn [foldl].
  - case_decide as Hj; [by apply elem_of_nil in Hj|done].
  - rewrite IH. destruct (decide (j = i)) as [->|Hne].
    + rewrite list_lookup_alter_eq.
      destruct (decide (i ∈ idxs)) as [?|_]; [done|].
      destruct (decide (i ∈ i :: idxs)) as [_|Hn]; [done|].
      destruct Hn. apply list_elem_of_here.
    + rewrite list_lookup_alter_ne by done.
      destruct (decide (j ∈ idxs)) as [Hj|Hj];
        destruct (decide (j ∈ i :: idxs)) as [Hj'|Hj']; try done.
      * destruct Hj'. by apply list_elem_of_further.
      * apply elem_of_cons in Hj' as [?|?]; done.
Qed.

Lemma foldl_alter_all (f : Ui.Overlay → Ui.Overlay) (l : list Ui.Overlay) :
  foldl (λ l i, alter f i l) l (seq 0 (length l)) = f <$> l.
Proof.
  apply list_eq. intros j.
  rewrite foldl_alter_lookup by apply NoDup_seq.
  rewrite list_lookup_fmap.
  destruct (decide (j ∈ seq 0 (length l))) as [Hj|Hj]; [done|].
  rewrite elem_of_seq in Hj.
  rewrite lookup_ge_None_2; [done|]. lia.
Qed.

Lemma html_indices h p (idxs : list nat) d :
  Forge.html (Some h) (map (λ i, (i, p)) idxs) d
  = Ui.mkDoc (foldl (λ l i, alter (Ui.alterLeaf (λ _, Ui.mkLeaf h []) p) i l)
                (Ui.overlays d) idxs)
      (Ui.created d).
Proof.
  unfold Forge.html. revert d. induction idxs as [|i idxs IH]; intros d; simpl.
  - by destruct d.
  - by rewrite IH.
Qed.

(** [$(sel).html(h)] for one of the three ids rewrites that leaf of every
    overlay. *)
Lemma html_everywhere h p d :
  Forge.html (Some h) (map (λ i, (i, p)) (seq 0 (length (Ui.overlays d)))) d
  = Ui.mkDoc (Ui.alterLeaf (λ _, Ui.mkLeaf h []) p <$> Ui.overlays d) (Ui.created d).
Proof. by rewrite html_indices, foldl_alter_all. Qed.

(** ** Appending one button to every foot *)

Lemma withoutButton_keeps n (l : Ui.Leaf) :
  (∀ b, b ∈ Ui.buttons l → Ui.node b ≠ n) → Ui.withoutButton n l = l.
Proof.
  intros Hall. destruct l as [m bs]. unfold Ui.withoutButton. simpl in *. f_equal.
  induction bs as [|b bs IH]; [done|].
  rewrite filter_cons_True by (apply Hall, list_elem_of_here).
  rewrite IH; [done|]. intros b' Hb'. by apply Hall, list_elem_of_further.
Qed.

Lemma withoutButton_added (b : Ui.Button) (l : Ui.Leaf) :
  Ui.withoutButton (Ui.node b) (Ui.mkLeaf (Ui.markup l) (Ui.buttons l ++ [b]))
  = Ui.withoutButton (Ui.node b) l.
Proof.
  unfold Ui.withoutButton. simpl. f_equal.
  rewrite filter_app, filter_cons_False, filter_nil, app_nil_r; [done|].
  by intros ?.
Qed.

(** A button of the document keeps its place when an absent one is
    detached. *)
Lemma detach_absent (n : nat) (o : Ui.Overlay) :
  (∀ p b, b ∈ Ui.buttons (Ui.getLeaf p o) → Ui.node b ≠ n) →
  Ui.alterLeaf (Ui.withoutButton n) Ui.Title
    (Ui.alterLeaf (Ui.withoutButton n) Ui.Body
       (Ui.alterLeaf (Ui.withoutButton n) Ui.Foot o)) = o.
Proof.
  intros Hall. destruct o as [cs t b f]. unfold Ui.alterLeaf. simpl.
  rewrite (withoutButton_keeps n t), (withoutButton_keeps n b),
    (withoutButton_keeps n f); [done|..].
  - apply (Hall Ui.Foot).
  - apply (Hall Ui.Body).
  - apply (Hall Ui.Title).
Qed.

Lemma append_everywhere (b : Ui.Button) (d : Ui.Doc) :
  (∀ o p b', o ∈ Ui.overlays d → b' ∈ Ui.buttons (Ui.getLeaf p o) →
     Ui.node b' ≠ Ui.node b) →
  Forge.append b (map (λ i, (i, Ui.Foot)) (seq 0 (length (Ui.overlays d)))) d
  = Ui.mkDoc
      (alter (Ui.alterLeaf (λ l, Ui.mkLeaf (Ui.markup l) (Ui.buttons l ++ [b])) Ui.Foot)
         (length (Ui.overlays d) - 1)%nat (Ui.overlays d))
      (Ui.created d).
Proof.
  intros Habsent. destruct d as [l c]. simpl in *.
  set (add := Ui.alterLeaf (λ l, Ui.mkLeaf (Ui.markup l) (Ui.buttons l ++ [b])) Ui.Foot).
  set (detach := λ o, Ui.alterLeaf (Ui.withoutButton (Ui.node b)) Ui.Title
                        (Ui.alterLeaf (Ui.withoutButton (Ui.node b)) Ui.Body
                           (Ui.alterLeaf (Ui.withoutButton (Ui.node b)) Ui.Foot o))).
  assert (Hdetach : detach <$> l = l).
  { apply list_eq. intros j. rewrite list_lookup_fmap.
    destruct (l !! j) as [o|] eqn:Hj; [|done]. simpl. f_equal.
    apply detach_absent. intros p b' Hb'.
    eapply Habsent; [|done]. by eapply list_elem_of_lookup_2. }
  assert (Hda : ∀ o, detach (add o) = detach o).
  { intros [cs t bd f]. unfold detach, add, Ui.alterLeaf. simpl.
    by rewrite (withoutButton_added b f). }
  assert (Hprefix : ∀ m, (m ≤ length l)%nat →
            Forge.append b (map (λ i, (i, Ui.Foot)) (seq 0 m)) (Ui.mkDoc l c)
            = Ui.mkDoc (match m with O => l | S m' => alter add m' l end) c).
  { induction m as [|m IH]; intros Hm; [done|].
    rewrite seq_S, map_app. unfold Forge.append in *. rewrite foldl_app.
    rewrite IH by lia. simpl. unfold Ui.appendChild. simpl. f_equal.
    change (alter add m (detach <$> match m with O => l | S m' => alter add m' l end)
            = alter add m l).
    destruct m as [|m']; [by rewrite Hdetach|].
    rewrite (list_fmap_alter detach add id)
      by (apply Forall_forall; intros o _; apply Hda).
    rewrite (list_alter_id id) by done. by rewrite Hdetach. }
  rewrite Hprefix by done.
  destruct (length l) as [|n'] eqn:Hlen;
    [|by replace (S n' - 1)%nat with n' by lia].
  apply nil_length_inv in Hlen. by subst l.
Qed.

(** ** The loop over the [buttons] argument *)

Lemma elem_of_alter (g : Ui.Overlay → Ui.Overlay) (i : nat) (l : list Ui.Overlay) o' :
  o' ∈ alter g i l → o' ∈ l ∨ ∃ o, o ∈ l ∧ o' = g o.
Proof.
  intros [j Hj]%list_elem_of_lookup.
  destruct (decide (i = j)) as [->|Hne].
  - rewrite list_lookup_alter_eq in Hj.
    destruct (l !! j) as [o|] eqn:Ho; [|done].
    simpl in Hj. injection Hj as <-. right. exists o. split; [|done].
    by eapply list_elem_of_lookup_2.
  - rewrite list_lookup_alter_ne in Hj by done.
    left. by eapply list_elem_of_lookup_2.
Qed.

Lemma addButtons_spec (specs : list ButtonSpec) (d : Ui.Doc) :
  uiWellFormed d →
  let foot := map (λ i, (i, Ui.Foot)) (seq 0 (length (Ui.overlays d))) in
  let d' :=
    foldl (λ d btn,
             let '(b, d) :=
               Ui.createButton ("tf-btn " ++ Js.or_else (b_type btn) "primary")
                 (b_label btn) d in
             Forge.append b foot d)
          d specs in
  Ui.overlays d'
  = alter (Ui.alterLeaf
             (λ l, Ui.mkLeaf (Ui.markup l)
                     (Ui.buttons l ++ madeButtons (Ui.created d) specs)) Ui.Foot)
      (length (Ui.overlays d) - 1)%nat (Ui.overlays d)
  ∧ Ui.created d' = (Ui.created d + length specs)%nat
  ∧ uiWellFormed d'.
Proof.
  revert d. induction specs as [|s specs IH]; intros d Hwf foot d'.
  - subst d'. simpl. split; [|split; [lia|done]].
    symmetry. apply list_alter_id. intros [cs t b [m bs]]. simpl.
    by rewrite app_nil_r.
  - subst d'. cbn [foldl]. unfold Ui.createButton.
    set (b := Ui.mkButton (Ui.created d) _ _).
    set (d1 := Ui.mkDoc (Ui.overlays d) (S (Ui.created d))).
    assert (Hstep : Forge.append b foot d1
              = Ui.mkDoc
                  (alter (Ui.alterLeaf
                            (λ l, Ui.mkLeaf (Ui.markup l) (Ui.buttons l ++ [b])) Ui.Foot)
                     (length (Ui.overlays d) - 1)%nat (Ui.overlays d))
                  (S (Ui.created d))).
    { apply (append_everywhere b d1). intros o p b' Ho Hb'.
      specialize (Hwf o p b' Ho Hb'). simpl. lia. }
    rewrite Hstep. clear Hstep.
    set (d2 := Ui.mkDoc _ (S (Ui.created d))).
    assert (Hwf2 : uiWellFormed d2).
    { intros o' p b' Ho' Hb'. subst d2. cbn [Ui.overlays Ui.created] in *.
      apply elem_of_alter in Ho' as [Ho|(o & Ho & ->)].
      - specialize (Hwf o' p b' Ho Hb'). lia.
      - destruct p; cbn in Hb'.
        + specialize (Hwf o Ui.Title b' Ho Hb'). lia.
        + specialize (Hwf o Ui.Body b' Ho Hb'). lia.
        + apply elem_of_app in Hb' as [Hb'|Hb'].
          * specialize (Hwf o Ui.Foot b' Ho Hb'). lia.
          * apply list_elem_of_singleton in Hb'. subst b'. simpl. lia. }
    assert (Hlen : length (Ui.overlays d2) = length (Ui.overlays d))
      by (subst d2; cbn [Ui.overlays]; apply length_alter).
    pose proof (IH d2 Hwf2) as IH2. cbv zeta in IH2. rewrite Hlen in IH2.
    fold foot in IH2. destruct IH2 as (Hov & Hcr & Hwf').
    split; [|split; [|exact Hwf']].
    + etrans; [exact Hov|]. subst d2. cbn [Ui.overlays Ui.created].
      rewrite list_alter_alter_eq. apply list_alter_ext; [|done].
      intros [cs t bd [m bs]] _. simpl. by rewrite <- app_assoc.
    + etrans; [exact Hcr|]. subst d2. cbn [Ui.created length]. lia.
Qed.

(** ** [modal] and [closeModal] *)

Lemma modal_spec (title content : option string) (specs : list ButtonSpec)
    (this : UIManager.t) (d : Ui.Doc) :
  uiWellFormed d →
  let d' := UIManager.modal title content specs this d in
  let n := length (Ui.overlays d) in
  length (Ui.overlays d') = n
  ∧ Ui.created d' = (Ui.created d + length specs)%nat
  ∧ uiWellFormed d'
  ∧ ∀ j o, Ui.overlays d !! j = Some o →
      Ui.overlays d' !! j
      = Some (Ui.mkOverlay
                (if decide (j = UIManager.modalEl this)
                 then {["active"]} ∪ Ui.classes o else Ui.classes o)
                (match title with Some h => Ui.mkLeaf h [] | None => Ui.title o end)
                (match content with Some h => Ui.mkLeaf h [] | None => Ui.body o end)
                (Ui.mkLeaf EmptyString
                   (if decide (S j = n)
                    then madeButtons (Ui.created d) specs else []))).
Proof.
  intros Hwf d' n. subst d'. unfold UIManager.modal.
  set (fT := λ o, match title with
                  | Some h => Ui.alterLeaf (λ _, Ui.mkLeaf h []) Ui.Title o
                  | None => o end).
  set (fB := λ o, match content with
                  | Some h => Ui.alterLeaf (λ _, Ui.mkLeaf h []) Ui.Body o
                  | None => o end).
  set (fF := Ui.alterLeaf (λ _, Ui.mkLeaf EmptyString []) Ui.Foot).
  assert (H1 : Forge.html title (Ui.querySelectorAll "#tf-m-title" d) d
               = Ui.mkDoc (fT <$> Ui.overlays d) (Ui.created d)).
  { subst fT. destruct title as [h|]; [apply html_everywhere|].
    destruct d as [l c]. simpl. by rewrite list_fmap_id. }
  rewrite H1. set (d1 := Ui.mkDoc (fT <$> Ui.overlays d) (Ui.created d)).
  assert (H2 : Forge.html content (Ui.querySelectorAll "#tf-m-body" d1) d1
               = Ui.mkDoc (fB <$> Ui.overlays d1) (Ui.created d)).
  { subst fB. destruct content as [h|]; [exact (html_everywhere h Ui.Body d1)|].
    subst d1. simpl. by rewrite list_fmap_id. }
  rewrite H2. set (d2 := Ui.mkDoc (fB <$> Ui.overlays d1) (Ui.created d)).
  assert (H3 : Forge.html (Some EmptyString) (Ui.querySelectorAll "#tf-m-foot" d2) d2
               = Ui.mkDoc (fF <$> Ui.overlays d2) (Ui.created d))
    by exact (html_everywhere EmptyString Ui.Foot d2).
  rewrite H3. set (d3 := Ui.mkDoc (fF <$> Ui.overlays d2) (Ui.created d)).
  assert (Hlen3 : length (Ui.overlays d3) = n)
    by (subst d3 d2 d1; cbn [Ui.overlays]; by rewrite !length_fmap).
  assert (Hfoot : Ui.querySelectorAll "#tf-m-foot" d2
                  = map (λ i, (i, Ui.Foot)) (seq 0 (length (Ui.overlays d3)))).
  { rewrite Hlen3. unfold Ui.querySelectorAll. simpl.
    subst d2 d1. cbn [Ui.overlays]. by rewrite !length_fmap. }
  rewrite Hfoot.
  assert (Hlook3 : ∀ j, Ui.overlays d3 !! j = (λ o, fF (fB (fT o))) <$> Ui.overlays d !! j).
  { intros j. subst d3 d2 d1. cbn [Ui.overlays]. rewrite !list_lookup_fmap.
    by destruct (Ui.overlays d !! j). }
  assert (Hwf3 : uiWellFormed d3).
  { intros o3 p b [j Hj]%list_elem_of_lookup Hb. rewrite Hlook3 in Hj.
    destruct (Ui.overlays d !! j) as [o|] eqn:Ho; [|done].
    simpl in Hj. injection Hj as <-.
    assert (Hin : o ∈ Ui.overlays d) by by eapply list_elem_of_lookup_2.
    change (Ui.created d3) with (Ui.created d).
    subst fT fB fF. destruct p, title, content; cbn in Hb;
      try (by apply elem_of_nil in Hb);
      first [exact (Hwf o Ui.Title b Hin Hb) | exact (Hwf o Ui.Body b Hin Hb)]. }
  destruct (addButtons_spec specs d3 Hwf3) as (Hov & Hcr & Hwf4).
  cbv zeta in Hov, Hcr, Hwf4.
  set (d4 := foldl _ d3 specs) in *.
  unfold Forge.addClass. cbn [foldl Ui.overlays Ui.created].
  split; [by rewrite length_alter, Hov, length_alter|].
  split; [exact Hcr|]. split.
  { intros o' p b Ho' Hb. cbn [Ui.overlays Ui.created] in *.
    apply elem_of_alter in Ho' as [Ho|(o & Ho & ->)].
    - by apply (Hwf4 o' p b).
    - apply (Hwf4 o p b Ho). by destruct p. }
  intros j o Ho. rewrite Hov, Hlen3.
  assert (Hj : (j < n)%nat) by (subst n; by eapply lookup_lt_Some).
  assert (Hbase : alter
                    (Ui.alterLeaf
                       (λ l, Ui.mkLeaf (Ui.markup l)
                               (Ui.buttons l ++ madeButtons (Ui.created d3) specs))
                       Ui.Foot) (n - 1)%nat (Ui.overlays d3) !! j
                  = Some (Ui.mkOverlay (Ui.classes o)
                            (match title with
                             | Some h => Ui.mkLeaf h [] | None => Ui.title o end)
                            (match content with
                             | Some h => Ui.mkLeaf h [] | None => Ui.body o end)
                            (Ui.mkLeaf EmptyString
                               (if decide (S j = n)
                                then madeButtons (Ui.created d) specs else [])))).
  { destruct (decide (S j = n)) as [Hlast|Hnot].
    - replace (n - 1)%nat with j by lia.
      rewrite list_lookup_alter_eq, Hlook3, Ho. simpl. f_equal.
      subst fT fB fF. by destruct title, content, o.
    - rewrite list_lookup_alter_ne by lia.
      rewrite Hlook3, Ho. simpl. f_equal.
      subst fT fB fF. by destruct title, content, o. }
  destruct (decide (j = UIManager.modalEl this)) as [->|Hne].
  - by rewrite list_lookup_alter_eq, Hbase.
  - by rewrite list_lookup_alter_ne, Hbase by done.
Qed.

Lemma closeModal_eq this d :
  UIManager.closeModal this d
  = Ui.mkDoc (alter (Ui.alterClasses (λ cs, cs ∖ {["active"]}))
                (UIManager.modalEl this) (Ui.overlays d))
      (Ui.created d).
Proof. done. Qed.

(** X15. [modal] opens the overlay of its manager and [closeModal] closes
    it: after [modal] the overlay has the class [active]; after
    [closeModal] it has not, while its title, body and foot and every
    other overlay are as [modal] left them; a second [closeModal] changes
    nothing. *)
Theorem X15_modal_opens_closeModal_closes (title content : option string)
    (specs : list ButtonSpec) (this : UIManager.t) (d : Ui.Doc) :
  uiWellFormed d →
  (UIManager.modalEl this < length (Ui.overlays d))%nat →
  let k := UIManager.modalEl this in
  let opened := UIManager.modal title content specs this d in
  let closed := UIManager.closeModal this opened in
  ∃ o, Ui.overlays opened !! k = Some o
       ∧ "active" ∈ Ui.classes o
       ∧ Ui.overlays closed !! k
         = Some (Ui.mkOverlay (Ui.classes o ∖ {["active"]})
                   (Ui.title o) (Ui.body o) (Ui.foot o))
       ∧ (∀ j, j ≠ k → Ui.overlays closed !! j = Ui.overlays opened !! j)
       ∧ Ui.created closed = Ui.created opened
       ∧ UIManager.closeModal this closed = closed.
Proof.
  intros Hwf Hk k opened closed. subst k.
  destruct (modal_spec title content specs this d Hwf) as (_ & _ & _ & Hlook).
  destruct (lookup_lt_is_Some_2 (Ui.overlays d) _ Hk) as [o0 Ho0].
  specialize (Hlook _ o0 Ho0). fold opened in Hlook.
  rewrite decide_True in Hlook by done.
  eexists. split; [exact Hlook|]. split; [set_solver|].
  subst closed. rewrite !closeModal_eq. cbn [Ui.overlays Ui.created].
  split; [by rewrite list_lookup_alter_eq, Hlook|].
  split; [intros j Hj; by rewrite list_lookup_alter_ne|].
  split; [done|].
  f_equal. rewrite list_alter_alter_eq. apply list_alter_ext; [|done].
  intros [cs t b f] _. unfold Ui.alterClasses. simpl. f_equal.
  by rewrite difference_difference_l_L, (idemp_L (∪)).
Qed.

(** X16. [modal] writes through the ids, and every overlay of the document
    carries them: the title and the content given are assigned to the
    title and body of every overlay (an undefined one leaves them as they
    were), every foot is emptied, and each new button, appended to every
    foot in turn, ends in the foot of the last overlay, where the buttons
    stand in the order of the array with the class [tf-btn] and their type
    (or [primary]); only the manager's own overlay is given the class
    [active].  So a manager that is not the last one constructed opens a
    dialog without buttons. *)
Theorem X16_modal_writes_every_overlay (title content : option string)
    (specs : list ButtonSpec) (this : UIManager.t) (d : Ui.Doc) :
  uiWellFormed d →
  let d' := UIManager.modal title content specs this d in
  let n := length (Ui.overlays d) in
  length (Ui.overlays d') = n
  ∧ Ui.created d' = (Ui.created d + length specs)%nat
  ∧ uiWellFormed d'
  ∧ (∀ j o, Ui.overlays d !! j = Some o →
       Ui.overlays d' !! j
       = Some (Ui.mkOverlay
                 (if decide (j = UIManager.modalEl this)
                  then {["active"]} ∪ Ui.classes o else Ui.classes o)
                 (match title with Some h => Ui.mkLeaf h [] | None => Ui.title o end)
                 (match content with Some h => Ui.mkLeaf h [] | None => Ui.body o end)
                 (Ui.mkLeaf EmptyString
                    (if decide (S j = n)
                     then madeButtons (Ui.created d) specs else []))))
  ∧ (∀ o', (S (UIManager.modalEl this) < n)%nat →
       Ui.overlays d' !! UIManager.modalEl this = Some o' →
       Ui.buttons (Ui.foot o') = []).
Proof.
  intros Hwf d' n.
  destruct (modal_spec title content specs this d Hwf) as (Hlen & Hcr & Hwf' & Hlook).
  fold d' n in Hlen, Hcr, Hwf', Hlook.
  repeat (split; [done|]).
  intros o' Hk Ho'.
  destruct (lookup_lt_is_Some_2 (Ui.overlays d) (UIManager.modalEl this))
    as [o Ho]; [fold n; lia|].
  rewrite (Hlook _ o Ho) in Ho'. injection Ho' as <-. simpl.
  rewrite decide_False; [done|lia].
Qed.

Lemma empty_wellFormed : uiWellFormed Ui.empty.
Proof. intros o p b Ho. by apply elem_of_nil in Ho. Qed.

Lemma new_wellFormed d : uiWellFormed d → uiWellFormed (UIManager.new d).2.
Proof.
  intros Hwf o p b Ho Hb. simpl in *.
  apply elem_of_app in Ho as [Ho|Ho]; [by apply (Hwf o p b)|].
  apply list_elem_of_singleton in Ho. subst o.
  destruct p; by apply elem_of_nil in Hb.
Qed.

Lemma twoManagers_wellFormed : uiWellFormed twoManagers.2.
Proof. apply (new_wellFormed (UIManager.new Ui.empty).2), new_wellFormed, empty_wellFormed. Qed.

(** Two managers: the first opens its dialog and closes it again. *)
Lemma X15_modal_opens_closeModal_closes_witness :
  uiWellFormed twoManagers.2
  ∧ (UIManager.modalEl twoManagers.1.1 < length (Ui.overlays twoManagers.2))%nat
  ∧ ∃ o, Ui.overlays (UIManager.modal (Some "Title") (Some "Text") okCancel
                        twoManagers.1.1 twoManagers.2)
           !! UIManager.modalEl twoManagers.1.1 = Some o
         ∧ "active" ∈ Ui.classes o.
Proof.
  assert (Hk : (UIManager.modalEl twoManagers.1.1 < length (Ui.overlays twoManagers.2))%nat)
    by (vm_compute; lia).
  split; [exact twoManagers_wellFormed|]. split; [exact Hk|].
  destruct (X15_modal_opens_closeModal_closes (Some "Title") (Some "Text") okCancel
              twoManagers.1.1 twoManagers.2 twoManagers_wellFormed Hk)
    as (o & Ho & Hact & _).
  by exists o.
Defined.

(** Two managers: the dialog the first one opens has no buttons; they are
    in the overlay of the second. *)
Lemma X16_modal_writes_every_overlay_witness :
  uiWellFormed twoManagers.2
  ∧ ∃ o1 o2,
      Ui.overlays (UIManager.modal (Some "Title") None okCancel
                     twoManagers.1.1 twoManagers.2) !! 0%nat = Some o1
      ∧ Ui.overlays (UIManager.modal (Some "Title") None okCancel
                       twoManagers.1.1 twoManagers.2) !! 1%nat = Some o2
      ∧ Ui.buttons (Ui.foot o1) = []
      ∧ map Ui.innerText (Ui.buttons (Ui.foot o2)) = ["OK"; "Cancel"]
      ∧ map Ui.className (Ui.buttons (Ui.foot o2)) = ["tf-btn primary"; "tf-btn secondary"].
Proof.
  split; [exact twoManagers_wellFormed|].
  pose proof (X16_modal_writes_every_overlay (Some "Title") None okCancel
                twoManagers.1.1 twoManagers.2 twoManagers_wellFormed) as H.
  cbv zeta in H. destruct H as (_ & _ & _ & Hlook & _).
  destruct (Ui.overlays twoManagers.2 !! 0%nat) as [a|] eqn:Ha;
    [|vm_compute in Ha; discriminate].
  destruct (Ui.overlays twoManagers.2 !! 1%nat) as [b|] eqn:Hb;
    [|vm_compute in Hb; discriminate].
  eexists. eexists.
  split; [exact (Hlook 0%nat a Ha)|]. split; [exact (Hlook 1%nat b Hb)|].
  by repeat split.
Defined.

(** * Entities *)




